(** * secure-prompts-mcp: the prompt audit of [src/index.ts]

    A shallow embedding of [auditPrompts] and of the [audit_prompts] tool
    handler, with the regular expressions they rely on, followed by the
    properties of the classification and of the aggregate counts. *)

From Stdlib Require Import Strings.String Strings.Ascii Numbers.DecimalString.
From Stdlib Require Import List Bool Arith NArith ZArith Lia.
From Stdlib Require Import Sorting.Permutation Numbers.DecimalNat.
Import ListNotations.

Set Implicit Arguments.

(** ** JavaScript strings

    A JavaScript string is a sequence of UTF-16 code units; [length],
    [substring] and the regular expressions below (no [u] flag) all work on
    code units. *)

Definition code_unit := N.
Definition jsstring := list code_unit.

(** An ASCII literal of the source as a sequence of code units. *)
Fixpoint lit (s : string) : jsstring :=
  match s with
  | EmptyString => []
  | String a s' => N_of_ascii a :: lit s'
  end.

(** The double quote, U+0022. *)
Definition dquote : jsstring := [34%N].
(** The line feed, U+000A. *)
Definition nl : jsstring := [10%N].

(** [String.prototype.substring(0, n)]. *)
Definition substring0 (n : nat) (s : jsstring) : jsstring := firstn n s.

(** [s.endsWith(t)], used to state what a preview ends with. *)
Definition ends_with (t s : jsstring) : Prop := exists pre, s = pre ++ t.

(** Number-to-string conversion of a template literal, for the integers the
    audit prints (array lengths, confidences, line numbers): plain decimal
    digits, which is what JavaScript prints for integers below 10^21. *)
Definition nat_to_string (n : nat) : jsstring :=
  lit (NilEmpty.string_of_uint (Nat.to_uint n)).

Definition Z_to_string (z : Z) : jsstring :=
  lit (NilEmpty.string_of_int (Z.to_int z)).

(** [Array.prototype.join]. *)
Fixpoint join (sep : jsstring) (l : list jsstring) : jsstring :=
  match l with
  | [] => []
  | [x] => x
  | x :: rest => x ++ sep ++ join sep rest
  end.

(** ** Regular expressions

    The syntax used by the patterns of the audit: literal characters, [.],
    [*], [?], alternation, sequencing and the [$] assertion. *)

Inductive regex : Type :=
| Eps                         (* the empty pattern *)
| Chr (c : code_unit)         (* a literal character *)
| Dot                         (* [.] *)
| Eol                         (* [$] (no [m] flag) *)
| Seq (r1 r2 : regex)
| Alt (r1 r2 : regex)
| Star (r : regex)            (* greedy [*] *)
| Opt (r : regex).            (* greedy [?] *)

(** A run of literal characters, such as [copy]. *)
Fixpoint Str (s : string) : regex :=
  match s with
  | EmptyString => Eps
  | String a EmptyString => Chr (N_of_ascii a)
  | String a s' => Seq (Chr (N_of_ascii a)) (Str s')
  end.

Declare Scope regex_scope.
Delimit Scope regex_scope with re.
Bind Scope regex_scope with regex.
Infix "@" := Seq (at level 40, left associativity) : regex_scope.
Infix "|||" := Alt (at level 50, left associativity) : regex_scope.

(** [.] matches every code unit but the line terminators
    U+000A, U+000D, U+2028 and U+2029. *)
Definition is_line_terminator (c : code_unit) : bool :=
  (c =? 10)%N || (c =? 13)%N || (c =? 8232)%N || (c =? 8233)%N.

(** Canonicalize of ECMAScript for the [i] flag without [u]: a code unit is
    replaced by its upper case, unless that would turn a unit from 128 up
    into one below 128.  On the units below 128 this is the ASCII upper case.
    A unit from 128 up stays from 128 up, so it never equals the canonical
    form of one of the ASCII characters the patterns are made of; it is left
    as it is here. *)
Definition canonicalize (ignoreCase : bool) (c : code_unit) : code_unit :=
  if ignoreCase && (97 <=? c)%N && (c <=? 122)%N then (c - 32)%N else c.

Definition char_eq (ignoreCase : bool) (p c : code_unit) : bool :=
  (canonicalize ignoreCase p =? canonicalize ignoreCase c)%N.

(** The iteration of a greedy [*] (RepeatMatcher of ECMAScript, in
    continuation-passing style): [m1] matches the body once; an iteration
    that consumes nothing fails, as the standard says, so every iteration
    shortens the rest of the input and [n = length s] iterations are all
    that can happen (see [matcher_star] below). *)
Fixpoint star_loop
    (m1 : jsstring -> (jsstring -> option jsstring) -> option jsstring)
    (k : jsstring -> option jsstring) (n : nat) (s : jsstring)
    : option jsstring :=
  match n with
  | O => k s
  | S n' =>
      match m1 s (fun s' => if length s' <? length s
                            then star_loop m1 k n' s' else None) with
      | Some e => Some e
      | None => k s
      end
  end.

(** The backtracking matcher of ECMAScript: [matcher i r s k] matches [r]
    at the front of the rest [s] of the input and hands what is left to the
    continuation [k]; the first success in priority order wins. *)
Fixpoint matcher (i : bool) (r : regex) (s : jsstring)
    (k : jsstring -> option jsstring) {struct r} : option jsstring :=
  match r with
  | Eps => k s
  | Chr p =>
      match s with
      | c :: s' => if char_eq i p c then k s' else None
      | [] => None
      end
  | Dot =>
      match s with
      | c :: s' => if is_line_terminator c then None else k s'
      | [] => None
      end
  | Eol =>
      match s with
      | [] => k s
      | _ :: _ => None
      end
  | Seq r1 r2 => matcher i r1 s (fun s' => matcher i r2 s' k)
  | Alt r1 r2 =>
      match matcher i r1 s k with
      | Some e => Some e
      | None => matcher i r2 s k
      end
  | Star r1 => star_loop (matcher i r1) k (length s) s
  | Opt r1 =>
      match matcher i r1 s k with
      | Some e => Some e
      | None => k s
      end
  end.

(** The search loop of RegExpBuiltinExec: try a match at index [idx], then
    at each later index up to and including the end of the input.  The
    result is the pair of the start and end index of the match. *)
Fixpoint search (i : bool) (r : regex) (s : jsstring) (idx : nat)
    : option (nat * nat) :=
  match matcher i r s (fun e => Some e) with
  | Some e => Some (idx, idx + (length s - length e))
  | None =>
      match s with
      | [] => None
      | _ :: s' => search i r s' (S idx)
      end
  end.

(** A RegExp object: its pattern and flags, and the mutable [lastIndex]. *)
Record RegExp : Type := mkRegExp {
  source : regex;
  ignoreCase : bool;
  global : bool;
  lastIndex : nat
}.

(** A regular expression literal [/r/i]: a fresh object, [lastIndex] 0. *)
Definition re_i (r : regex) : RegExp := mkRegExp r true false 0.

Definition set_lastIndex (R : RegExp) (n : nat) : RegExp :=
  mkRegExp (source R) (ignoreCase R) (global R) n.

(** RegExpBuiltinExec (no [y] flag): the search starts at [lastIndex] for a
    global expression and at 0 otherwise, and only a global expression has
    its [lastIndex] written. *)
Definition RegExpBuiltinExec (R : RegExp) (S : jsstring)
    : option (nat * nat) * RegExp :=
  let start := if global R then lastIndex R else 0 in
  if length S <? start then
    (None, if global R then set_lastIndex R 0 else R)
  else
    match search (ignoreCase R) (source R) (skipn start S) start with
    | None => (None, if global R then set_lastIndex R 0 else R)
    | Some (b, e) => (Some (b, e), if global R then set_lastIndex R e else R)
    end.

(** [RegExp.prototype.test]: whether exec found a match, and the object
    after the call. *)
Definition test (R : RegExp) (S : jsstring) : bool * RegExp :=
  match RegExpBuiltinExec R S with
  | (Some _, R') => (true, R')
  | (None, R') => (false, R')
  end.

(** [/r/i.test(s)] on a literal: the fresh object is dropped. *)
Definition test_literal (r : regex) (s : jsstring) : bool :=
  fst (test (re_i r) s).


(** [x || d] on strings: the empty string is falsy. *)
Definition or_else (x d : jsstring) : jsstring :=
  match x with
  | [] => d
  | _ :: _ => x
  end.

(** ** The data of the audit *)

Inductive Context : Type := user_facing | internal | unknown.

Inductive SuggestedAction : Type := register_badge | audit_only | review.

Definition Context_eqb (a b : Context) : bool :=
  match a, b with
  | user_facing, user_facing | internal, internal | unknown, unknown => true
  | _, _ => false
  end.

(** One element of [args.prompts].  [lineNumber] is a number that the audit
    only copies and prints, taken here to be an integer; [surroundingCode]
    is optional. *)
Module Arg.
Record t : Type := mk {
  filePath : jsstring;
  lineNumber : Z;
  promptText : jsstring;
  surroundingCode : option jsstring
}.
End Arg.

Record PromptCandidate : Type := mkPromptCandidate {
  filePath : jsstring;
  lineNumber : Z;
  promptText : jsstring;
  context : Context;
  confidence : Z;
  suggestedAction : SuggestedAction;
  preview : jsstring
}.

Module AuditResult.
Record t : Type := mk {
  totalFound : nat;
  userFacing : nat;
  internal : nat;
  needsReview : nat;
  prompts : list PromptCandidate;
  summary : jsstring
}.
End AuditResult.

(** ** The pattern tables

    [USER_FACING_PATTERNS] and [INTERNAL_PATTERNS] are module-level arrays of
    RegExp objects, shared by every call of [auditPrompts]: they are the
    only state the audit could carry from one prompt to the next. *)

Record Store : Type := mkStore {
  USER_FACING_PATTERNS : list RegExp;
  INTERNAL_PATTERNS : list RegExp
}.

Definition module_store : Store := {|
  USER_FACING_PATTERNS := [
    (* /copy.*button|copyable|clipboard/i *)
    re_i (Str "copy" @ Star Dot @ Str "button" ||| Str "copyable"
          ||| Str "clipboard");
    (* /onClick.*copy|handleCopy/i *)
    re_i (Str "onClick" @ Star Dot @ Str "copy" ||| Str "handleCopy");
    (* /data-prompt|promptText.*prop/i *)
    re_i (Str "data-prompt" ||| Str "promptText" @ Star Dot @ Str "prop");
    (* /user.*can.*copy|copy.*to.*clipboard/i *)
    re_i (Str "user" @ Star Dot @ Str "can" @ Star Dot @ Str "copy"
          ||| Str "copy" @ Star Dot @ Str "to" @ Star Dot @ Str "clipboard");
    (* /<pre>|<code>|CodeBlock/i *)
    re_i (Str "<pre>" ||| Str "<code>" ||| Str "CodeBlock");
    (* /PROMPT_.*\.txt|public\/.*prompt/i *)
    re_i (Str "PROMPT_" @ Star Dot @ Str ".txt"
          ||| Str "public/" @ Star Dot @ Str "prompt")
  ];
  INTERNAL_PATTERNS := [
    (* /api\/|server|backend/i *)
    re_i (Str "api/" ||| Str "server" ||| Str "backend");
    (* /process\.env|getServerSide/i *)
    re_i (Str "process.env" ||| Str "getServerSide");
    (* /internal|private|system/i *)
    re_i (Str "internal" ||| Str "private" ||| Str "system");
    (* /\.server\.|route\.ts|api\//i *)
    re_i (Str ".server." ||| Str "route.ts" ||| Str "api/")
  ]
|}.

(** The three literals tested against the file path. *)

(* /public\/|PROMPT_.*\.txt/i *)
Definition public_file_re : regex :=
  (Str "public/" ||| Str "PROMPT_" @ Star Dot @ Str ".txt")%re.

(* /api\/|\.server\.|route\.ts/i *)
Definition api_file_re : regex :=
  (Str "api/" ||| Str ".server." ||| Str "route.ts")%re.

(* /components?\/|\.tsx$/i *)
Definition component_file_re : regex :=
  (Str "component" @ Opt (Str "s") @ Str "/" ||| Str ".tsx" @ Eol)%re.

Definition isPublicFile (filePath : jsstring) : bool :=
  test_literal public_file_re filePath.

Definition isApiFile (filePath : jsstring) : bool :=
  test_literal api_file_re filePath.

Definition isComponentFile (filePath : jsstring) : bool :=
  test_literal component_file_re filePath.

(** [table.some(p => p.test(surrounding) || p.test(filePath))]: the objects
    of the table are visited in order until one matches; both [||] and
    [some] stop at the first [true].  Returns the table after the calls. *)
Fixpoint some_test (table : list RegExp) (surrounding filePath : jsstring)
    : bool * list RegExp :=
  match table with
  | [] => (false, [])
  | p :: rest =>
      let (b1, p1) := test p surrounding in
      if b1 then (true, p1 :: rest)
      else
        let (b2, p2) := test p1 filePath in
        if b2 then (true, p2 :: rest)
        else
          let (b, rest') := some_test rest surrounding filePath in
          (b, p2 :: rest')
  end.

(** ** The classification of one prompt: the body of the loop of
    [auditPrompts] *)

(** The context and the confidence, from the five signals. *)
Definition determine_context
    (isPublic isApi isComponent hasUserFacing hasInternal : bool)
    : Context * Z :=
  if isPublic || hasUserFacing then
    (user_facing, if isPublic then 95 else 75)%Z
  else if isApi || hasInternal then
    (internal, if isApi then 90 else 70)%Z
  else if isComponent then
    (if hasUserFacing then user_facing else unknown, 60%Z)
  else
    (unknown, 50%Z).

(** The suggested action, from the context and the confidence. *)
Definition determine_action (context : Context) (confidence : Z)
    : SuggestedAction :=
  if Context_eqb context user_facing && (confidence >=? 70)%Z then
    register_badge
  else if Context_eqb context internal && (confidence >=? 70)%Z then
    audit_only
  else review.

(** The preview: the first 100 code units, and [...] after a longer text. *)
Definition make_preview (promptText : jsstring) : jsstring :=
  substring0 100 promptText
    ++ (if 100 <? length promptText then lit "..." else []).

(** [prompt.surroundingCode || '']. *)
Definition surrounding_of (prompt : Arg.t) : jsstring :=
  match Arg.surroundingCode prompt with
  | Some s => or_else s []
  | None => []
  end.

Definition classify_step (prompt : Arg.t) (st : Store)
    : PromptCandidate * Store :=
  let surrounding := surrounding_of prompt in
  let filePath := Arg.filePath prompt in
  let isPublic := isPublicFile filePath in
  let isApi := isApiFile filePath in
  let isComponent := isComponentFile filePath in
  let (hasUserFacingIndicators, ufp) :=
    some_test (USER_FACING_PATTERNS st) surrounding filePath in
  let (hasInternalIndicators, ip) :=
    some_test (INTERNAL_PATTERNS st) surrounding filePath in
  let (context, confidence) :=
    determine_context isPublic isApi isComponent
      hasUserFacingIndicators hasInternalIndicators in
  let suggestedAction := determine_action context confidence in
  let preview := make_preview (Arg.promptText prompt) in
  ({| filePath := Arg.filePath prompt;
      lineNumber := Arg.lineNumber prompt;
      promptText := Arg.promptText prompt;
      context := context;
      confidence := confidence;
      suggestedAction := suggestedAction;
      preview := preview |},
   {| USER_FACING_PATTERNS := ufp; INTERNAL_PATTERNS := ip |}).

(** ** [auditPrompts] *)

(** The [for ... of] loop: each classified prompt is pushed at the end of
    [candidates]. *)
Fixpoint audit_loop (prompts : list Arg.t) (candidates : list PromptCandidate)
    (st : Store) : list PromptCandidate * Store :=
  match prompts with
  | [] => (candidates, st)
  | prompt :: rest =>
      let (c, st') := classify_step prompt st in
      audit_loop rest (candidates ++ [c]) st'
  end.

Definition is_user_facing (c : PromptCandidate) : bool :=
  Context_eqb (context c) user_facing.

Definition is_internal (c : PromptCandidate) : bool :=
  Context_eqb (context c) internal.

Definition is_needs_review (c : PromptCandidate) : bool :=
  Context_eqb (context c) unknown || (confidence c <? 70)%Z.

Definition make_summary (total userFacing internal needsReview : nat)
    : jsstring :=
  lit "Found " ++ nat_to_string total
    ++ lit " prompts: " ++ nat_to_string userFacing
    ++ lit " user-facing (recommend badges), " ++ nat_to_string internal
    ++ lit " internal (audit only), " ++ nat_to_string needsReview
    ++ lit " need manual review.".

Definition auditPrompts (prompts : list Arg.t) (st : Store)
    : AuditResult.t * Store :=
  let (candidates, st') := audit_loop prompts [] st in
  let userFacing := length (filter is_user_facing candidates) in
  let internal := length (filter is_internal candidates) in
  let needsReview := length (filter is_needs_review candidates) in
  let summary :=
    make_summary (length candidates) userFacing internal needsReview in
  ({| AuditResult.totalFound := length candidates;
      AuditResult.userFacing := userFacing;
      AuditResult.internal := internal;
      AuditResult.needsReview := needsReview;
      AuditResult.prompts := candidates;
      AuditResult.summary := summary |},
   st').

(** ** The [audit_prompts] tool handler *)

Inductive McpError : Type :=
| InvalidParams (message : jsstring).

(** One line of a list of the guidance; [withConfidence] adds the
    [(N% confidence)] suffix. *)
Definition guidance_item (withConfidence : bool) (p : PromptCandidate)
    : jsstring :=
  lit "- " ++ filePath p ++ lit ":" ++ Z_to_string (lineNumber p)
    ++ lit " - " ++ dquote ++ preview p ++ dquote
    ++ (if withConfidence
        then lit " (" ++ Z_to_string (confidence p) ++ lit "% confidence)"
        else []).

Definition guidance_list (keep : PromptCandidate -> bool)
    (withConfidence : bool) (prompts : list PromptCandidate) : jsstring :=
  or_else (join nl (map (guidance_item withConfidence) (filter keep prompts)))
          (lit "- None found").

(** The guidance template, line by line. *)
Definition make_guidance (result : AuditResult.t) : jsstring :=
  join nl [
    [];
    lit "## Prompt Audit Results";
    [];
    AuditResult.summary result;
    [];
    lit "### Recommended Actions:";
    [];
    lit "**User-Facing Prompts ("
      ++ nat_to_string (AuditResult.userFacing result) ++ lit "):**";
    lit "These prompts are likely displayed to users or have copy buttons. Consider registering them with secure badges:";
    guidance_list is_user_facing true (AuditResult.prompts result);
    [];
    lit "**Internal Prompts ("
      ++ nat_to_string (AuditResult.internal result) ++ lit "):**";
    lit "These appear to be backend/API prompts. They should be secure but don't need public badges:";
    guidance_list is_internal false (AuditResult.prompts result);
    [];
    lit "**Needs Review ("
      ++ nat_to_string (AuditResult.needsReview result) ++ lit "):**";
    lit "These prompts need manual review to determine if they're user-facing:";
    guidance_list is_needs_review true (AuditResult.prompts result);
    [];
    lit "### Next Steps:";
    lit "1. Ask the user: " ++ dquote
      ++ lit "Would you like to register any of these prompts with security badges?"
      ++ dquote;
    lit "2. For user-facing prompts, use register_secure_prompt";
    lit "3. Show them the badge options (full badge, compact link, icon button)";
    []
  ].

(** The object the handler serialises: the audit result, and the guidance
    when the audit ran. *)
Record ToolResponse : Type := mkToolResponse {
  result : AuditResult.t;
  guidance : option jsstring
}.

Definition empty_result : AuditResult.t :=
  {| AuditResult.totalFound := 0;
     AuditResult.userFacing := 0;
     AuditResult.internal := 0;
     AuditResult.needsReview := 0;
     AuditResult.prompts := [];
     AuditResult.summary := lit "No prompts provided for analysis." |}.

(** The [audit_prompts] case of the request handler.  [None] stands for a
    [prompts] argument that is missing or not an array. *)
Definition audit_prompts_tool (prompts : option (list Arg.t)) (st : Store)
    : (McpError + ToolResponse) * Store :=
  match prompts with
  | None => (inl (InvalidParams (lit "prompts array is required")), st)
  | Some [] => (inr {| result := empty_result; guidance := None |}, st)
  | Some ps =>
      let (r, st') := auditPrompts ps st in
      (inr {| result := r; guidance := Some (make_guidance r) |}, st')
  end.

(** The classification of a prompt by a freshly loaded module. *)
Definition classify (prompt : Arg.t) : PromptCandidate :=
  fst (classify_step prompt module_store).


(** The module's tables after a sequence of calls of the tool. *)
Fixpoint run_calls (history : list (option (list Arg.t))) (st : Store)
    : Store :=
  match history with
  | [] => st
  | call :: later => run_calls later (snd (audit_prompts_tool call st))
  end.

(** Counting, independently of [filter]. *)
Fixpoint count_if (A : Type) (f : A -> bool) (l : list A) : nat :=
  match l with
  | [] => 0
  | x :: l' => (if f x then 1 else 0) + count_if f l'
  end.

(** Whether some pattern of a table matches a text. *)
Definition has_indicator (table : list RegExp) (text : jsstring) : bool :=
  existsb (fun R => fst (test R text)) table.

(** What every classified prompt is made of: a context and a confidence
    that come out of the decision chain for some value of the five signals,
    the action decided from them, and the preview of its own text. *)
Definition well_formed (c : PromptCandidate) : Prop :=
  (exists a b d e f,
      determine_context a b d e f = (context c, confidence c)) /\
  suggestedAction c = determine_action (context c) (confidence c) /\
  preview c = make_preview (promptText c).

(** In how many of the three buckets a classified prompt is counted. *)
Definition buckets (c : PromptCandidate) : nat :=
  (if is_user_facing c then 1 else 0) + (if is_internal c then 1 else 0)
  + (if is_needs_review c then 1 else 0).

Definition matcher_fn : Type :=
  jsstring -> (jsstring -> option jsstring) -> option jsstring.

(** A matcher looks at its continuation only on rests no longer than its
    input. *)
Definition local (m : matcher_fn) : Prop :=
  forall s k k',
    (forall s', length s' <= length s -> k s' = k' s') -> m s k = m s k'.

(** A matcher fails when its continuation always fails. *)
Definition strict (m : matcher_fn) : Prop :=
  forall s, m s (fun _ => None) = None.

(** A table none of whose expressions is global, and a store of such
    tables. *)
Definition stateless (table : list RegExp) : Prop :=
  Forall (fun R => global R = false) table.

Definition stateless_store (st : Store) : Prop :=
  stateless (USER_FACING_PATTERNS st) /\ stateless (INTERNAL_PATTERNS st).

(** The counts of a result, against its items. *)
Definition counts_agree (r : AuditResult.t) : Prop :=
  let items := AuditResult.prompts r in
  AuditResult.totalFound r = length items /\
  AuditResult.userFacing r =
    count_if (fun c => Context_eqb (context c) user_facing) items /\
  AuditResult.internal r =
    count_if (fun c => Context_eqb (context c) internal) items /\
  AuditResult.needsReview r =
    count_if (fun c => Context_eqb (context c) unknown
                       || (confidence c <? 70)%Z) items /\
  AuditResult.userFacing r + AuditResult.internal r
    <= AuditResult.totalFound r /\
  count_if (fun c => Context_eqb (context c) unknown) items
    <= AuditResult.needsReview r.

(** ** Sample prompts *)

Module Samples.
Definition banner : Arg.t :=
  Arg.mk (lit "src/components/Banner.tsx") 12 (lit "You are a banner.")
         (Some (lit "<code>")).
Definition plain_component : Arg.t :=
  Arg.mk (lit "src/components/Banner.tsx") 12 (lit "You are a banner.") None.
Definition welcome : Arg.t :=
  Arg.mk (lit "public/PROMPT_welcome.txt") 1 (repeat 120%N 150) None.
Definition chat_route : Arg.t :=
  Arg.mk (lit "src/api/chat/route.ts") 40 (lit "short")
         (Some (lit "process.env.OPENAI_KEY")).
Definition config : Arg.t :=
  Arg.mk (lit "src/lib/config.ts") 7 (lit "You are an assistant.")
         (Some []).
Definition env_reader : Arg.t :=
  Arg.mk (lit "src/lib/config.ts") 7 (lit "You are an assistant.")
         (Some (lit "const k = process.env.KEY")).
Definition public_api : Arg.t :=
  Arg.mk (lit "src/api/public/route.ts") 3 (lit "You are a router.")
         (Some (lit "internal server: process.env")).
Definition dots : Arg.t :=
  Arg.mk (lit "src/lib/config.ts") 7 (lit "...") None.
End Samples.

(** ** What a pattern matches

    The matches of a pattern, stated without the matcher: [lang i r w rest]
    says that [r] matches the code units [w] when [rest] is what follows
    them in the input.  An iteration of [*] consumes something; [$] wants
    nothing to follow. *)
Inductive lang (i : bool) : regex -> jsstring -> jsstring -> Prop :=
| lang_Eps rest : lang i Eps [] rest
| lang_Chr p c rest : char_eq i p c = true -> lang i (Chr p) [c] rest
| lang_Dot c rest : is_line_terminator c = false -> lang i Dot [c] rest
| lang_Eol : lang i Eol [] []
| lang_Seq r1 r2 w1 w2 rest :
    lang i r1 w1 (w2 ++ rest) -> lang i r2 w2 rest ->
    lang i (Seq r1 r2) (w1 ++ w2) rest
| lang_Alt_l r1 r2 w rest : lang i r1 w rest -> lang i (Alt r1 r2) w rest
| lang_Alt_r r1 r2 w rest : lang i r2 w rest -> lang i (Alt r1 r2) w rest
| lang_Star_stop r rest : lang i (Star r) [] rest
| lang_Star_more r w1 w2 rest :
    w1 <> [] -> lang i r w1 (w2 ++ rest) -> lang i (Star r) w2 rest ->
    lang i (Star r) (w1 ++ w2) rest
| lang_Opt_skip r rest : lang i (Opt r) [] rest
| lang_Opt_take r w rest : lang i r w rest -> lang i (Opt r) w rest.

(** [r] matches somewhere in [s]. *)
Definition found (i : bool) (r : regex) (s : jsstring) : Prop :=
  exists pre w post, s = pre ++ w ++ post /\ lang i r w post.

(** Two texts that differ at most in the case of ASCII letters. *)
Definition same_ignoring_case (a b : jsstring) : Prop :=
  Forall2 (fun x y => char_eq true x y = true) a b.

(** [hay] contains [needle], ignoring the case of ASCII letters. *)
Definition contains_ci (needle hay : jsstring) : Prop :=
  exists pre w post, hay = pre ++ w ++ post /\ same_ignoring_case needle w.

(** [hay] ends with [needle], ignoring the case of ASCII letters. *)
Definition ends_with_ci (needle hay : jsstring) : Prop :=
  exists pre w, hay = pre ++ w /\ same_ignoring_case needle w.

(** A text without a line terminator in it. *)
Definition on_one_line (w : jsstring) : Prop :=
  Forall (fun c => is_line_terminator c = false) w.

(** [chain [x1; ...; xn] w]: [w] is [x1], then anything on one line, then
    [x2], and so on up to [xn], ignoring the case of ASCII letters.  This
    is what [x1.*x2.* ... xn] matches. *)
Fixpoint chain (words : list jsstring) (w : jsstring) : Prop :=
  match words with
  | [] => w = []
  | x :: more =>
      match more with
      | [] => same_ignoring_case x w
      | _ :: _ =>
          exists a mid b,
            w = a ++ mid ++ b /\ same_ignoring_case x a /\
            on_one_line mid /\ chain more b
      end
  end.

(** [hay] contains a text that is such a chain. *)
Definition contains_chain (words : list jsstring) (hay : jsstring) : Prop :=
  exists pre w post, hay = pre ++ w ++ post /\ chain words w.

(** The pattern [x1.*x2.* ... xn] and the alternation of such patterns, as
    the literals of the source parse. *)
Definition chain_regex (words : list string) : regex :=
  match words with
  | [] => Eps
  | x :: more => fold_left (fun r y => (r @ Star Dot @ Str y)%re) more (Str x)
  end.

Definition alt_regex (chains : list (list string)) : regex :=
  match chains with
  | [] => Eps
  | c :: cs =>
      fold_left (fun r d => (r ||| chain_regex d)%re) cs (chain_regex c)
  end.

(** The two tables and two of the path patterns, read as chains. *)
Definition user_facing_chains : list (list (list string)) :=
  [ [["copy"; "button"]; ["copyable"]; ["clipboard"]];
    [["onClick"; "copy"]; ["handleCopy"]];
    [["data-prompt"]; ["promptText"; "prop"]];
    [["user"; "can"; "copy"]; ["copy"; "to"; "clipboard"]];
    [["<pre>"]; ["<code>"]; ["CodeBlock"]];
    [["PROMPT_"; ".txt"]; ["public/"; "prompt"]] ]%string.

Definition internal_chains : list (list (list string)) :=
  [ [["api/"]; ["server"]; ["backend"]];
    [["process.env"]; ["getServerSide"]];
    [["internal"]; ["private"]; ["system"]];
    [[".server."]; ["route.ts"]; ["api/"]] ]%string.

Definition public_file_chains : list (list string) :=
  [["public/"]; ["PROMPT_"; ".txt"]]%string.

Definition api_file_chains : list (list string) :=
  [["api/"]; [".server."]; ["route.ts"]]%string.

(** A text has one of the chains of a table. *)
Definition has_chain (table : list (list (list string))) (text : jsstring)
    : Prop :=
  exists words, In words (concat table) /\ contains_chain (map lit words) text.

(** ** Sample prompts in capitals *)

Definition banner_in_capitals : Arg.t :=
  Arg.mk (lit "SRC/COMPONENTS/BANNER.TSX") 12 (lit "You are a banner.")
         (Some (lit "<CODE>")).

Definition SuggestedAction_eqb (a b : SuggestedAction) : bool :=
  match a, b with
  | register_badge, register_badge | audit_only, audit_only
  | review, review => true
  | _, _ => false
  end.

(** The four counts of a result. *)
Definition counts (r : AuditResult.t) : nat * nat * nat * nat :=
  (AuditResult.totalFound r, AuditResult.userFacing r,
   AuditResult.internal r, AuditResult.needsReview r).

(** A decimal digit. *)
Definition is_digit (c : code_unit) : bool := (48 <=? c)%N && (c <=? 57)%N.

(** The prompt of [p] with [before] and [after] put around its surrounding
    code. *)
Definition with_more_context (before after : jsstring) (p : Arg.t) : Arg.t :=
  Arg.mk (Arg.filePath p) (Arg.lineNumber p) (Arg.promptText p)
         (Some (before ++ surrounding_of p ++ after)).

(** ** [generateEmbedCode] and the [get_embed_code] tool *)




(** * Properties *)

(** ** The matcher: [*] never runs out of iterations *)

Section StarLoop.
Variable m1 : matcher_fn.
Hypothesis m1_local : local m1.
Hypothesis m1_strict : strict m1.

Lemma star_loop_S (k : jsstring -> option jsstring) (n : nat)
    (s : jsstring) :
  star_loop m1 k (S n) s =
    match m1 s (fun s' => if length s' <? length s
                          then star_loop m1 k n s' else None) with
    | Some e => Some e
    | None => k s
    end.
Proof. reflexivity. Qed.

Lemma star_loop_local (n : nat) : local (fun s k => star_loop m1 k n s).
Proof.
  induction n as [|n IH]; intros s k k' Hk; cbv beta.
  - simpl. apply Hk. lia.
  - rewrite !star_loop_S, (Hk s (le_n _)).
    rewrite (m1_local s _
               (fun s' => if length s' <? length s
                          then star_loop m1 k' n s' else None));
      [reflexivity|].
    intros s' Hs'. destruct (length s' <? length s); [|reflexivity].
    apply IH. intros s'' Hs''. apply Hk. lia.
Qed.

Lemma star_loop_strict (n : nat) :
  strict (fun s k => star_loop m1 k n s).
Proof.
  induction n as [|n IH]; intros s; cbv beta; [reflexivity|].
  rewrite star_loop_S.
  rewrite (m1_local s _ (fun _ => None)); [rewrite m1_strict; reflexivity|].
  intros s' _. destruct (length s' <? length s); [apply IH|reflexivity].
Qed.

Lemma star_loop_step (k : jsstring -> option jsstring) (n : nat) :
  forall s, length s <= n -> star_loop m1 k (S n) s = star_loop m1 k n s.
Proof.
  induction n as [|n IH]; intros s Hs.
  - rewrite star_loop_S. rewrite (m1_local s _ (fun _ => None));
      [rewrite m1_strict; reflexivity|].
    intros s' _. destruct (Nat.ltb_spec (length s') (length s));
      [lia|reflexivity].
  - rewrite (star_loop_S k (S n)), (star_loop_S k n).
    rewrite (m1_local s _
               (fun s' => if length s' <? length s
                          then star_loop m1 k n s' else None));
      [reflexivity|].
    intros s' _. destruct (Nat.ltb_spec (length s') (length s));
      [apply IH; lia|reflexivity].
Qed.

Lemma star_loop_fuel (k : jsstring -> option jsstring) (n : nat) :
  forall s, length s <= n ->
  star_loop m1 k n s = star_loop m1 k (length s) s.
Proof.
  induction n as [|n IH]; intros s Hs.
  - replace (length s) with 0 by lia. reflexivity.
  - destruct (Nat.eq_dec (length s) (S n)) as [->|Hne]; [reflexivity|].
    rewrite star_loop_step by lia. apply IH. lia.
Qed.
End StarLoop.

Lemma matcher_local_strict (i : bool) (r : regex) :
  local (matcher i r) /\ strict (matcher i r).
Proof.
  induction r as [|p| | |r1 [L1 S1] r2 [L2 S2]|r1 [L1 S1] r2 [L2 S2]
                 |r1 [L1 S1]|r1 [L1 S1]]; split.
  - intros s k k' Hk. simpl. apply Hk. lia.
  - intros s. reflexivity.
  - intros [|c s] k k' Hk; simpl; [reflexivity|].
    destruct (char_eq i p c); [apply Hk; simpl; lia|reflexivity].
  - intros [|c s]; simpl; [reflexivity|]. destruct (char_eq i p c); reflexivity.
  - intros [|c s] k k' Hk; simpl; [reflexivity|].
    destruct (is_line_terminator c); [reflexivity|apply Hk; simpl; lia].
  - intros [|c s]; simpl; [reflexivity|].
    destruct (is_line_terminator c); reflexivity.
  - intros [|c s] k k' Hk; simpl; [apply Hk; simpl; lia|reflexivity].
  - intros [|c s]; reflexivity.
  - intros s k k' Hk. simpl. apply L1. intros s' Hs'. apply L2.
    intros s'' Hs''. apply Hk. lia.
  - intros s. simpl. rewrite (L1 s _ (fun _ => None)); [apply S1|].
    intros s' _. apply S2.
  - intros s k k' Hk. simpl. rewrite (L1 s k k' Hk), (L2 s k k' Hk).
    reflexivity.
  - intros s. simpl. rewrite S1. apply S2.
  - intros s k k' Hk. simpl. apply (star_loop_local L1). exact Hk.
  - intros s. simpl. apply (star_loop_strict L1 S1).
  - intros s k k' Hk. simpl. rewrite (L1 s k k' Hk), (Hk s (le_n _)).
    reflexivity.
  - intros s. simpl. rewrite S1. reflexivity.
Qed.

(** The equation of RepeatMatcher: [r*] tries one more iteration of [r],
    which has to consume something, and then [r*] again on what is left;
    failing that, it stops and continues with [k].  The count of
    iterations that [star_loop] carries never cuts a match short. *)
Lemma matcher_star (i : bool) (r : regex) (s : jsstring)
    (k : jsstring -> option jsstring) :
  matcher i (Star r) s k =
    match matcher i r s (fun s' => if length s' <? length s
                                   then matcher i (Star r) s' k
                                   else None) with
    | Some e => Some e
    | None => k s
    end.
Proof.
  destruct (matcher_local_strict i r) as [L1 S1].
  change (matcher i (Star r) s k)
    with (star_loop (matcher i r) k (length s) s).
  destruct (length s) as [|n] eqn:Hlen.
  - simpl. rewrite (L1 s _ (fun _ => None)); [rewrite S1; reflexivity|].
    intros s' _. reflexivity.
  - rewrite star_loop_S, Hlen.
    rewrite (L1 s _
               (fun s' => if length s' <? S n
                          then matcher i (Star r) s' k
                          else None)); [reflexivity|].
    intros s' _. destruct (Nat.ltb_spec (length s') (S n)); [|reflexivity].
    apply (star_loop_fuel L1 S1). lia.
Qed.

(** ** The pattern tables carry no state *)

Lemma test_not_global (R : RegExp) (S : jsstring) :
  global R = false -> snd (test R S) = R.
Proof.
  intros Hg. unfold test, RegExpBuiltinExec. rewrite Hg.
  destruct (length S <? 0); [reflexivity|].
  destruct (search (ignoreCase R) (source R) (skipn 0 S) 0) as [[b e]|];
    reflexivity.
Qed.

Lemma test_not_global_pair (R : RegExp) (S : jsstring) :
  global R = false -> test R S = (fst (test R S), R).
Proof.
  intros Hg. rewrite <- (test_not_global R S Hg) at 3.
  destruct (test R S); reflexivity.
Qed.

(** A global expression does carry state: the same call, made twice on the
    same object, answers differently. *)
Example global_test_has_state :
  let R := mkRegExp (Str "ab") true true 0 in
  let (b1, R1) := test R (lit "xxab") in
  let (b2, R2) := test R1 (lit "xxab") in
  b1 = true /\ lastIndex R1 = 4 /\ b2 = false /\ lastIndex R2 = 0.
Proof. vm_compute. repeat split. Qed.

Lemma some_test_stateless (table : list RegExp) (s f : jsstring) :
  stateless table ->
  some_test table s f =
    (existsb (fun R => fst (test R s) || fst (test R f)) table, table).
Proof.
  induction 1 as [|R rest HR Hrest IH]; simpl; [reflexivity|].
  rewrite (test_not_global_pair R s HR).
  destruct (fst (test R s)); simpl; [reflexivity|].
  rewrite (test_not_global_pair R f HR).
  destruct (fst (test R f)); simpl; [reflexivity|].
  rewrite IH. reflexivity.
Qed.

Lemma module_store_stateless : stateless_store module_store.
Proof. split; repeat constructor. Qed.

Lemma classify_step_store (p : Arg.t) (st : Store) :
  stateless_store st -> snd (classify_step p st) = st.
Proof.
  intros [Hu Hi]. unfold classify_step.
  rewrite (some_test_stateless _ _ Hu), (some_test_stateless _ _ Hi).
  destruct (determine_context _ _ _ _ _). destruct st; reflexivity.
Qed.

Lemma classify_step_module (p : Arg.t) :
  classify_step p module_store = (classify p, module_store).
Proof.
  unfold classify.
  rewrite <- (classify_step_store p module_store_stateless) at 3.
  destruct (classify_step p module_store); reflexivity.
Qed.

Lemma audit_loop_module (ps : list Arg.t) (acc : list PromptCandidate) :
  audit_loop ps acc module_store = (acc ++ map classify ps, module_store).
Proof.
  revert acc. induction ps as [|p ps IH]; intros acc; simpl.
  - rewrite app_nil_r. reflexivity.
  - rewrite classify_step_module, IH, <- app_assoc. reflexivity.
Qed.

Lemma auditPrompts_store (ps : list Arg.t) :
  snd (auditPrompts ps module_store) = module_store.
Proof. unfold auditPrompts. rewrite audit_loop_module. reflexivity. Qed.

Lemma auditPrompts_items (ps : list Arg.t) :
  AuditResult.prompts (fst (auditPrompts ps module_store)) = map classify ps.
Proof. unfold auditPrompts. rewrite audit_loop_module. reflexivity. Qed.

Lemma tool_store (call : option (list Arg.t)) :
  snd (audit_prompts_tool call module_store) = module_store.
Proof.
  destruct call as [[|p ps]|]; try reflexivity.
  unfold audit_prompts_tool.
  pose proof (auditPrompts_store (p :: ps)) as H.
  destruct (auditPrompts (p :: ps) module_store); exact H.
Qed.

Lemma run_calls_module (history : list (option (list Arg.t))) :
  run_calls history module_store = module_store.
Proof.
  induction history as [|call later IH]; simpl; [reflexivity|].
  rewrite tool_store. exact IH.
Qed.

(** ** What every classified prompt looks like *)

Lemma classify_step_signals (p : Arg.t) (st : Store) :
  let c := fst (classify_step p st) in
  (context c, confidence c) =
    determine_context (isPublicFile (Arg.filePath p))
      (isApiFile (Arg.filePath p)) (isComponentFile (Arg.filePath p))
      (fst (some_test (USER_FACING_PATTERNS st) (surrounding_of p)
              (Arg.filePath p)))
      (fst (some_test (INTERNAL_PATTERNS st) (surrounding_of p)
              (Arg.filePath p))) /\
  suggestedAction c = determine_action (context c) (confidence c) /\
  preview c = make_preview (Arg.promptText p) /\
  filePath c = Arg.filePath p /\ lineNumber c = Arg.lineNumber p /\
  promptText c = Arg.promptText p.
Proof.
  unfold classify_step.
  destruct (some_test (USER_FACING_PATTERNS st) _ _) as [uf ufp].
  destruct (some_test (INTERNAL_PATTERNS st) _ _) as [it ip].
  simpl fst. destruct (determine_context _ _ _ _ _) as [ctx conf].
  simpl. repeat split.
Qed.

Lemma classify_step_wf (p : Arg.t) (st : Store) :
  well_formed (fst (classify_step p st)).
Proof.
  destruct (classify_step_signals p st) as (Hc & Ha & Hp & _ & _ & Ht).
  repeat split; try assumption.
  - do 5 eexists. symmetry. exact Hc.
  - rewrite Ht. exact Hp.
Qed.

Lemma audit_loop_Forall (P : PromptCandidate -> Prop) :
  (forall p st, P (fst (classify_step p st))) ->
  forall ps acc st, Forall P acc -> Forall P (fst (audit_loop ps acc st)).
Proof.
  intros HP. induction ps as [|p ps IH]; intros acc st Hacc; simpl.
  - exact Hacc.
  - pose proof (HP p st) as Hc.
    destruct (classify_step p st) as [c st']. apply IH.
    apply Forall_app. split; [exact Hacc|]. constructor; [exact Hc|constructor].
Qed.

Lemma auditPrompts_Forall (P : PromptCandidate -> Prop) :
  (forall p st, P (fst (classify_step p st))) ->
  forall ps st, Forall P (AuditResult.prompts (fst (auditPrompts ps st))).
Proof.
  intros HP ps st. unfold auditPrompts.
  pose proof (@audit_loop_Forall P HP ps [] st (Forall_nil _)) as H.
  destruct (audit_loop ps [] st) as [cs st']. exact H.
Qed.

Lemma auditPrompts_counts (ps : list Arg.t) (st : Store) :
  let r := fst (auditPrompts ps st) in
  AuditResult.totalFound r = length (AuditResult.prompts r) /\
  AuditResult.userFacing r =
    length (filter is_user_facing (AuditResult.prompts r)) /\
  AuditResult.internal r =
    length (filter is_internal (AuditResult.prompts r)) /\
  AuditResult.needsReview r =
    length (filter is_needs_review (AuditResult.prompts r)) /\
  AuditResult.summary r =
    make_summary (AuditResult.totalFound r) (AuditResult.userFacing r)
      (AuditResult.internal r) (AuditResult.needsReview r).
Proof.
  unfold auditPrompts. destruct (audit_loop ps [] st) as [cs st'].
  simpl. repeat split.
Qed.

Lemma filter_length_count (A : Type) (f : A -> bool) (l : list A) :
  length (filter f l) = count_if f l.
Proof.
  induction l as [|x l IH]; simpl; [reflexivity|].
  destruct (f x); simpl; rewrite IH; reflexivity.
Qed.

Lemma count_if_ext (A : Type) (f g : A -> bool) (l : list A) :
  Forall (fun x => f x = g x) l -> count_if f l = count_if g l.
Proof.
  induction 1 as [|x l Hx _ IH]; simpl; [reflexivity|].
  rewrite Hx, IH. reflexivity.
Qed.

Lemma determine_context_cases (a b d e f : bool) :
  In (determine_context a b d e f)
     [(user_facing, 95); (user_facing, 75); (internal, 90); (internal, 70);
      (unknown, 60); (unknown, 50)]%Z.
Proof.
  destruct a, b, d, e, f; simpl; auto 10.
Qed.

Lemma well_formed_cases (c : PromptCandidate) :
  well_formed c ->
  In (context c, confidence c)
     [(user_facing, 95); (user_facing, 75); (internal, 90); (internal, 70);
      (unknown, 60); (unknown, 50)]%Z.
Proof.
  intros [(a & b & d & e & f & H) _]. rewrite <- H.
  apply determine_context_cases.
Qed.

Ltac context_cases c H :=
  let Hin := fresh "Hin" in
  pose proof (well_formed_cases H) as Hin;
  destruct c as [fp ln pt ctx conf act pv]; simpl in *;
  repeat (destruct Hin as [Hin|Hin]; [injection Hin as <- <-|]);
  try contradiction.

(** ** The classifier on sample prompts *)

Example classify_welcome :
  let c := classify Samples.welcome in
  context c = user_facing /\ confidence c = 95%Z /\
  suggestedAction c = register_badge /\
  length (preview c) = 103 /\ skipn 100 (preview c) = lit "...".
Proof. vm_compute. repeat split. Qed.

Example classify_chat_route :
  let c := classify Samples.chat_route in
  context c = internal /\ confidence c = 90%Z /\
  suggestedAction c = audit_only /\ preview c = lit "short".
Proof. vm_compute. repeat split. Qed.

Example classify_config :
  let c := classify Samples.config in
  context c = unknown /\ confidence c = 50%Z /\ suggestedAction c = review.
Proof. vm_compute. repeat split. Qed.

Example classify_plain_component :
  let c := classify Samples.plain_component in
  context c = unknown /\ confidence c = 60%Z /\ suggestedAction c = review.
Proof. vm_compute. repeat split. Qed.

(** The patterns ignore case, and [.] stops at a line break. *)
Example patterns_ignore_case :
  isPublicFile (lit "site/PUBLIC/Prompt.md") = true /\
  isPublicFile (lit "docs/prompt_v2.TXT") = true /\
  isPublicFile (lit "docs/prompt.txt") = false /\
  isComponentFile (lit "src/App.TSX") = true /\
  isComponentFile (lit "src/App.tsx.bak") = false /\
  has_indicator (USER_FACING_PATTERNS module_store)
    (lit "copy" ++ nl ++ lit "button") = false /\
  has_indicator (USER_FACING_PATTERNS module_store)
    (lit "Copy the Button") = true.
Proof. vm_compute. repeat split. Qed.

(** ** The suggested action *)

Lemma determine_action_spec (ctx : Context) (conf : Z) :
  (determine_action ctx conf = register_badge <->
     ctx = user_facing /\ (conf >= 70)%Z) /\
  (determine_action ctx conf = audit_only <->
     ctx = internal /\ (conf >= 70)%Z) /\
  (determine_action ctx conf = review <->
     ~ (ctx = user_facing /\ (conf >= 70)%Z) /\
     ~ (ctx = internal /\ (conf >= 70)%Z)).
Proof.
  unfold determine_action.
  destruct ctx; simpl; destruct (Z.geb_spec conf 70);
    repeat split; intros; try discriminate; try lia; try tauto;
    try (intros [? ?]; first [discriminate | lia]);
    try (intuition (first [discriminate | lia])).
Qed.

(** C4: the suggested action of every classified prompt is a function of
    its context and confidence alone, namely [determine_action]; it is
    [register_badge] exactly for a user-facing context with confidence at
    least 70, [audit_only] exactly for an internal context with confidence
    at least 70, and [review] for every other combination.  The rule is a
    threshold on whatever context and confidence it is given. *)
Theorem suggested_action_rule (p : Arg.t) (st : Store) :
  let c := fst (classify_step p st) in
  suggestedAction c = determine_action (context c) (confidence c) /\
  (suggestedAction c = register_badge <->
     context c = user_facing /\ (confidence c >= 70)%Z) /\
  (suggestedAction c = audit_only <->
     context c = internal /\ (confidence c >= 70)%Z) /\
  (suggestedAction c = review <->
     ~ (context c = user_facing /\ (confidence c >= 70)%Z) /\
     ~ (context c = internal /\ (confidence c >= 70)%Z)) /\
  (forall (ctx : Context) (conf : Z),
     (determine_action ctx conf = register_badge <->
        ctx = user_facing /\ (conf >= 70)%Z) /\
     (determine_action ctx conf = audit_only <->
        ctx = internal /\ (conf >= 70)%Z) /\
     (determine_action ctx conf = review <->
        ~ (ctx = user_facing /\ (conf >= 70)%Z) /\
        ~ (ctx = internal /\ (conf >= 70)%Z))).
Proof.
  intros c. destruct (classify_step_wf p st) as (_ & Ha & _).
  fold c in Ha. split; [exact Ha|]. rewrite Ha.
  pose proof (determine_action_spec (context c) (confidence c)) as (H1 & H2 & H3).
  split; [exact H1|]. split; [exact H2|]. split; [exact H3|].
  exact determine_action_spec.
Qed.

(** ** The confidence values and the three buckets *)

Lemma buckets_sum (l : list PromptCandidate) :
  Forall (fun c => buckets c = 1) l ->
  length (filter is_user_facing l) + length (filter is_internal l)
  + length (filter is_needs_review l) = length l.
Proof.
  induction 1 as [|c l Hc _ IH]; simpl; [reflexivity|].
  unfold buckets in Hc.
  destruct (is_user_facing c), (is_internal c), (is_needs_review c);
    simpl in *; lia.
Qed.

Lemma well_formed_values (c : PromptCandidate) :
  well_formed c ->
  In (confidence c) [50; 60; 70; 75; 90; 95]%Z /\
  match context c with
  | user_facing => confidence c = 75 \/ confidence c = 95
  | internal => confidence c = 70 \/ confidence c = 90
  | unknown => confidence c = 50 \/ confidence c = 60
  end%Z /\
  ((confidence c < 70)%Z <-> context c = unknown) /\
  buckets c = 1.
Proof.
  intros H. context_cases c H;
    (split; [simpl; tauto|]); (split; [tauto|]);
    (split; [split; intros; first [lia | discriminate | reflexivity]
            | reflexivity]).
Qed.

(** C10: the confidence of every classified prompt is one of 50, 60, 70,
    75, 90 and 95 (each of which occurs); a user-facing context comes with
    75 or 95, an internal one with 70 or 90, an unknown one with 50 or 60;
    so the confidence is below 70 exactly when the context is unknown, every
    item is counted in exactly one of the three buckets, [needsReview] is
    the number of items of unknown context, and the three counts add up to
    [totalFound]. *)
Theorem confidence_values_partition (ps : list Arg.t) (st : Store) :
  let r := fst (auditPrompts ps st) in
  Forall (fun c =>
            In (confidence c) [50; 60; 70; 75; 90; 95]%Z /\
            match context c with
            | user_facing => confidence c = 75 \/ confidence c = 95
            | internal => confidence c = 70 \/ confidence c = 90
            | unknown => confidence c = 50 \/ confidence c = 60
            end%Z /\
            ((confidence c < 70)%Z <-> context c = unknown) /\
            buckets c = 1)
         (AuditResult.prompts r) /\
  AuditResult.needsReview r =
    count_if (fun c => Context_eqb (context c) unknown)
             (AuditResult.prompts r) /\
  AuditResult.userFacing r + AuditResult.internal r
  + AuditResult.needsReview r = AuditResult.totalFound r /\
  map (fun p => confidence (classify p))
      [Samples.config; Samples.plain_component; Samples.env_reader;
       Samples.banner; Samples.chat_route; Samples.welcome]
  = [50; 60; 70; 75; 90; 95]%Z.
Proof.
  intros r.
  assert (Hwf : Forall well_formed (AuditResult.prompts r))
    by (apply auditPrompts_Forall; exact classify_step_wf).
  assert (Hall : Forall (fun c =>
            In (confidence c) [50; 60; 70; 75; 90; 95]%Z /\
            match context c with
            | user_facing => confidence c = 75 \/ confidence c = 95
            | internal => confidence c = 70 \/ confidence c = 90
            | unknown => confidence c = 50 \/ confidence c = 60
            end%Z /\
            ((confidence c < 70)%Z <-> context c = unknown) /\
            buckets c = 1) (AuditResult.prompts r)).
  { eapply Forall_impl; [|exact Hwf]. exact well_formed_values. }
  destruct (auditPrompts_counts ps st) as (Ht & Hu & Hi & Hn & _).
  fold r in Ht, Hu, Hi, Hn.
  split; [exact Hall|]. split; [|split].
  - rewrite Hn, filter_length_count. apply count_if_ext.
    eapply Forall_impl; [|exact Hall].
    intros c (_ & _ & Hlt & _). unfold is_needs_review.
    destruct (context c) eqn:Hctx; simpl; try reflexivity;
      destruct (Z.ltb_spec (confidence c) 70) as [Hc|Hc]; try reflexivity;
      apply Hlt in Hc; discriminate.
  - rewrite Ht, Hu, Hi, Hn. apply buckets_sum.
    eapply Forall_impl; [|exact Hall]. intros c H. apply H.
  - vm_compute. reflexivity.
Qed.

(** ** The aggregate counts *)

Lemma count_if_le (A : Type) (f g : A -> bool) (l : list A) :
  (forall x, f x = true -> g x = true) -> count_if f l <= count_if g l.
Proof.
  intros Hfg. induction l as [|x l IH]; simpl; [lia|].
  destruct (f x) eqn:Hf; [rewrite (Hfg x Hf)|destruct (g x)]; simpl; lia.
Qed.

Lemma count_if_disjoint (A : Type) (f g : A -> bool) (l : list A) :
  (forall x, f x = true -> g x = false) ->
  count_if f l + count_if g l <= length l.
Proof.
  intros Hfg. induction l as [|x l IH]; simpl; [lia|].
  destruct (f x) eqn:Hf; [rewrite (Hfg x Hf)|destruct (g x)]; simpl; lia.
Qed.

Lemma counts_agree_intro (r : AuditResult.t) :
  AuditResult.totalFound r = length (AuditResult.prompts r) ->
  AuditResult.userFacing r =
    length (filter is_user_facing (AuditResult.prompts r)) ->
  AuditResult.internal r =
    length (filter is_internal (AuditResult.prompts r)) ->
  AuditResult.needsReview r =
    length (filter is_needs_review (AuditResult.prompts r)) ->
  counts_agree r.
Proof.
  intros Ht Hu Hi Hn. unfold counts_agree.
  rewrite Ht, Hu, Hi, Hn, !filter_length_count.
  repeat split.
  - apply count_if_disjoint. intros c. unfold is_user_facing, is_internal.
    destruct (context c); simpl; congruence.
  - apply count_if_le. intros c Hc. unfold is_needs_review.
    rewrite Hc. reflexivity.
Qed.

(** C6: for every batch, whatever the module's tables hold, [userFacing] is
    the number of items of user-facing context, [internal] the number of
    items of internal context and [needsReview] the number of items whose
    context is unknown or whose confidence is below 70; [userFacing +
    internal] is at most [totalFound] and [needsReview] at least the number
    of items of unknown context.  This holds of the result of
    [auditPrompts] and of the result the tool answers with, the empty batch
    included. *)
Theorem aggregate_counts (ps : list Arg.t) (st : Store) :
  counts_agree (fst (auditPrompts ps st)) /\
  match fst (audit_prompts_tool (Some ps) st) with
  | inr resp => counts_agree (result resp)
  | inl _ => False
  end.
Proof.
  assert (H : counts_agree (fst (auditPrompts ps st))).
  { destruct (auditPrompts_counts ps st) as (Ht & Hu & Hi & Hn & _).
    apply counts_agree_intro; assumption. }
  split; [exact H|].
  destruct ps as [|p ps]; simpl.
  - apply counts_agree_intro; reflexivity.
  - simpl in H. destruct (auditPrompts (p :: ps) st) as [r st']. exact H.
Qed.

(** ** The summary *)

Lemma audit_loop_length (ps : list Arg.t) (acc : list PromptCandidate)
    (st : Store) :
  length (fst (audit_loop ps acc st)) = length acc + length ps.
Proof.
  revert acc st. induction ps as [|p ps IH]; intros acc st; simpl; [lia|].
  destruct (classify_step p st) as [c st']. rewrite IH, length_app.
  simpl. lia.
Qed.

Lemma auditPrompts_totalFound (ps : list Arg.t) (st : Store) :
  AuditResult.totalFound (fst (auditPrompts ps st)) = length ps.
Proof.
  unfold auditPrompts. pose proof (audit_loop_length ps [] st) as H.
  destruct (audit_loop ps [] st) as [cs st']. exact H.
Qed.

(** C7: for a batch that is not empty the tool answers with the result of
    [auditPrompts], whose summary is the template with the four counts of
    that same result in decimal, [totalFound] being the size of the
    batch. *)
Theorem summary_template (ps : list Arg.t) (st : Store) :
  ps <> [] ->
  match fst (audit_prompts_tool (Some ps) st) with
  | inr resp =>
      let r := result resp in
      r = fst (auditPrompts ps st) /\
      AuditResult.totalFound r = length ps /\
      AuditResult.summary r =
        lit "Found " ++ nat_to_string (AuditResult.totalFound r)
        ++ lit " prompts: " ++ nat_to_string (AuditResult.userFacing r)
        ++ lit " user-facing (recommend badges), "
        ++ nat_to_string (AuditResult.internal r)
        ++ lit " internal (audit only), "
        ++ nat_to_string (AuditResult.needsReview r)
        ++ lit " need manual review."
  | inl _ => False
  end.
Proof.
  intros Hne. destruct ps as [|p ps]; [contradiction|].
  unfold audit_prompts_tool.
  pose proof (auditPrompts_totalFound (p :: ps) st) as Ht.
  destruct (auditPrompts_counts (p :: ps) st) as (_ & _ & _ & _ & Hs).
  destruct (auditPrompts (p :: ps) st) as [r st']. simpl in *.
  repeat split; assumption.
Qed.

Lemma summary_template_witness :
  [Samples.banner; Samples.config; Samples.chat_route] <> [] /\
  match fst (audit_prompts_tool
               (Some [Samples.banner; Samples.config; Samples.chat_route])
               module_store) with
  | inr resp =>
      AuditResult.summary (result resp) =
        lit "Found 3 prompts: 1 user-facing (recommend badges), 1 internal (audit only), 1 need manual review."
  | inl _ => False
  end.
Proof.
  assert (Hne : [Samples.banner; Samples.config; Samples.chat_route] <> [])
    by discriminate.
  split; [exact Hne|].
  pose proof (summary_template module_store Hne) as H.
  destruct (fst (audit_prompts_tool _ module_store)) as [e|resp];
    [exact H|].
  destruct H as (Hr & _ & Hs). rewrite Hs, Hr. vm_compute. reflexivity.
Defined.

(** ** The empty batch *)

(** C3: on an empty batch the tool answers with the canonical empty result:
    the four counts are 0, there are no items, the summary is the fixed
    sentence; no guidance is attached, no item has been classified and the
    module's tables are left as they were. *)
Theorem empty_batch_canonical (st : Store) :
  audit_prompts_tool (Some []) st =
    (inr {| result :=
              {| AuditResult.totalFound := 0;
                 AuditResult.userFacing := 0;
                 AuditResult.internal := 0;
                 AuditResult.needsReview := 0;
                 AuditResult.prompts := [];
                 AuditResult.summary :=
                   lit "No prompts provided for analysis." |};
            guidance := None |},
     st).
Proof. reflexivity. Qed.

(** Called on an empty array, [auditPrompts] itself would fill in the
    template: the canonical summary comes from the handler. *)
Lemma auditPrompts_nil (st : Store) :
  AuditResult.summary (fst (auditPrompts [] st)) =
    lit "Found 0 prompts: 0 user-facing (recommend badges), 0 internal (audit only), 0 need manual review.".
Proof. reflexivity. Qed.

(** ** Order and independence *)

Lemma nth_error_map_middle (A B : Type) (f : A -> B) (pre post : list A)
    (x : A) :
  nth_error (map f (pre ++ x :: post)) (length pre) = Some (f x).
Proof.
  induction pre as [|y pre IH]; simpl; [reflexivity|exact IH].
Qed.

(** C8: after any sequence of earlier calls, the items of the result are
    the classifications of the prompts of the batch, one for one and in the
    order of the input; item [i] is [classify] of prompt [i], a function of
    that prompt alone, and carries its file path, line number and text. *)
Theorem items_in_input_order (history : list (option (list Arg.t)))
    (ps : list Arg.t) :
  let st := run_calls history module_store in
  let items := AuditResult.prompts (fst (auditPrompts ps st)) in
  items = map classify ps /\
  (forall i, nth_error items i = option_map classify (nth_error ps i)) /\
  map (fun c => (filePath c, lineNumber c, promptText c)) items =
    map (fun p => (Arg.filePath p, Arg.lineNumber p, Arg.promptText p)) ps.
Proof.
  intros st items. subst st items. rewrite run_calls_module.
  rewrite auditPrompts_items. split; [reflexivity|]. split.
  - intros i. apply nth_error_map.
  - rewrite map_map. apply map_ext. intros p. unfold classify.
    destruct (classify_step_signals p module_store)
      as (_ & _ & _ & Hf & Hl & Ht).
    rewrite Hf, Hl, Ht. reflexivity.
Qed.

(** ** Determinism *)

(** C9: classification is deterministic.  After any sequence of earlier
    calls the tables of the module are as they were loaded; a prompt is
    classified as [classify] of it wherever it stands in a batch, so two
    occurrences of it in one batch get equal items; and calling
    [auditPrompts] again on the same batch, in the state the first call
    left, gives the same result. *)
Theorem classification_deterministic (history : list (option (list Arg.t)))
    (pre mid post ps : list Arg.t) (p : Arg.t) :
  let st := run_calls history module_store in
  let items :=
    AuditResult.prompts
      (fst (auditPrompts (pre ++ p :: mid ++ p :: post) st)) in
  st = module_store /\
  nth_error items (length pre) = Some (classify p) /\
  nth_error items (length (pre ++ p :: mid)) = nth_error items (length pre) /\
  fst (auditPrompts ps (snd (auditPrompts ps st))) = fst (auditPrompts ps st) /\
  snd (auditPrompts ps st) = st.
Proof.
  intros st items. subst st items. rewrite run_calls_module.
  rewrite auditPrompts_items, !auditPrompts_store.
  split; [reflexivity|]. split; [apply nth_error_map_middle|].
  split; [|split; reflexivity].
  rewrite nth_error_map_middle.
  replace (pre ++ p :: mid ++ p :: post) with ((pre ++ p :: mid) ++ p :: post)
    by (rewrite <- app_assoc; reflexivity).
  apply nth_error_map_middle.
Qed.

(** ** The preview *)

Lemma lit_dots_length : length (lit "...") = 3.
Proof. reflexivity. Qed.

Lemma make_preview_spec (t : jsstring) :
  length (make_preview t) <= 103 /\
  make_preview t =
    (if 100 <? length t then firstn 100 t ++ lit "..." else t) /\
  (ends_with (lit "...") (make_preview t) <->
     100 < length t \/ ends_with (lit "...") t).
Proof.
  unfold make_preview, substring0.
  destruct (Nat.ltb_spec 100 (length t)) as [Hlong|Hshort].
  - split; [|split].
    + rewrite length_app, length_firstn, lit_dots_length. lia.
    + reflexivity.
    + split; [intros _; left; exact Hlong|].
      intros _. exists (firstn 100 t). reflexivity.
  - rewrite app_nil_r, (firstn_all2 t Hshort). split; [lia|].
    split; [reflexivity|]. split; [intros H; right; exact H|].
    intros [H|H]; [lia|exact H].
Qed.

(** C2, as the claim states it, fails for a short text that itself ends
    with three dots: the preview is the text, it ends with [...], and the
    text is not longer than 100. *)
Lemma preview_iff_counterexample :
  let c := classify Samples.dots in
  ~ (length (preview c) <= 103 /\
     (ends_with (lit "...") (preview c) <-> 100 < length (promptText c)) /\
     (length (promptText c) <= 100 -> preview c = promptText c)).
Proof.
  intros c (_ & [H _] & _).
  assert (Hends : ends_with (lit "...") (preview c)) by (exists []; reflexivity).
  apply H in Hends. vm_compute in Hends. lia.
Qed.

(** C2, amended: the preview of every classified prompt has at most 103
    code units; it is the first 100 code units of the text followed by
    [...] when the text is longer than 100, and the text unchanged
    otherwise; so it ends with [...] exactly when the text is longer than
    100 or itself ends with [...]. *)
Theorem preview_invariant (p : Arg.t) (st : Store) :
  let c := fst (classify_step p st) in
  length (preview c) <= 103 /\
  preview c =
    (if 100 <? length (promptText c)
     then firstn 100 (promptText c) ++ lit "..."
     else promptText c) /\
  (ends_with (lit "...") (preview c) <->
     100 < length (promptText c) \/ ends_with (lit "...") (promptText c)).
Proof.
  intros c. destruct (classify_step_wf p st) as (_ & _ & Hp).
  fold c in Hp. rewrite Hp. apply make_preview_spec.
Qed.

(** ** The public-file tier *)

Lemma search_unfold (i : bool) (r : regex) (s : jsstring) (idx : nat) :
  search i r s idx =
    match matcher i r s (fun e => Some e) with
    | Some e => Some (idx, idx + (length s - length e))
    | None =>
        match s with
        | [] => None
        | _ :: s' => search i r s' (S idx)
        end
    end.
Proof. destruct s; reflexivity. Qed.

Lemma search_found (i : bool) (r : regex) (pre s e : jsstring) (idx : nat) :
  matcher i r s (fun e => Some e) = Some e ->
  search i r (pre ++ s) idx <> None.
Proof.
  intros Hm. revert idx. induction pre as [|c pre IH]; intros idx.
  - simpl. rewrite search_unfold, Hm. discriminate.
  - rewrite search_unfold.
    destruct (matcher i r ((c :: pre) ++ s) _); [discriminate|].
    simpl. apply IH.
Qed.

Lemma test_literal_found (r : regex) (pre s e : jsstring) :
  matcher true r s (fun e => Some e) = Some e ->
  test_literal r (pre ++ s) = true.
Proof.
  intros Hm. unfold test_literal, test, RegExpBuiltinExec. simpl.
  pose proof (@search_found true r pre s e 0 Hm) as H.
  destruct (search true r (pre ++ s) 0) as [[b e']|]; [reflexivity|].
  contradiction.
Qed.

(** Every path with [public/] in it is a public file. *)
Lemma public_directory_is_public (pre post : jsstring) :
  isPublicFile (pre ++ lit "public/" ++ post) = true.
Proof. apply test_literal_found with (e := post). reflexivity. Qed.

(** C5: a prompt whose file path matches the public-file pattern is
    classified as user-facing with confidence 95, whatever the other
    tests on the path and the surrounding code answer and whatever the
    tables hold. *)
Theorem public_file_wins (p : Arg.t) (st : Store) :
  isPublicFile (Arg.filePath p) = true ->
  let c := fst (classify_step p st) in
  context c = user_facing /\ confidence c = 95%Z.
Proof.
  intros Hpub c. destruct (classify_step_signals p st) as (Hc & _).
  fold c in Hc. rewrite Hpub in Hc. simpl in Hc.
  injection Hc as -> ->. split; reflexivity.
Qed.

Lemma public_file_wins_witness :
  isPublicFile (Arg.filePath Samples.public_api) = true /\
  isApiFile (Arg.filePath Samples.public_api) = true /\
  has_indicator (INTERNAL_PATTERNS module_store)
    (surrounding_of Samples.public_api) = true /\
  context (classify Samples.public_api) = user_facing /\
  confidence (classify Samples.public_api) = 95%Z.
Proof.
  split; [reflexivity|]. split; [reflexivity|]. split; [reflexivity|].
  apply (@public_file_wins Samples.public_api module_store). reflexivity.
Defined.

(** ** Components with a user-facing indicator *)

Lemma or_else_nil (s : jsstring) : or_else s [] = s.
Proof. destruct s; reflexivity. Qed.

Lemma has_indicator_some_test (table : list RegExp) (s f : jsstring) :
  stateless table -> has_indicator table s = true ->
  fst (some_test table s f) = true.
Proof.
  intros Hst Hin. rewrite (some_test_stateless s f Hst). simpl.
  apply existsb_exists. apply existsb_exists in Hin.
  destruct Hin as (R & HR & Ht). exists R. split; [exact HR|].
  rewrite Ht. reflexivity.
Qed.

(** C1, as the claim states it, fails on its own example: the component
    [src/components/Banner.tsx] with [<code>] around the prompt is neither
    a public nor an API file, and it is not classified with confidence 60
    and sent to review. *)
Lemma component_indicator_counterexample :
  let p := Samples.banner in
  isComponentFile (Arg.filePath p) = true /\
  isPublicFile (Arg.filePath p) = false /\
  isApiFile (Arg.filePath p) = false /\
  has_indicator (USER_FACING_PATTERNS module_store) (surrounding_of p)
    = true /\
  ~ (context (classify p) = user_facing /\
     confidence (classify p) = 60%Z /\
     suggestedAction (classify p) = review /\
     AuditResult.needsReview (fst (auditPrompts [p] module_store)) = 1).
Proof.
  repeat (split; [reflexivity|]).
  intros (_ & H & _). vm_compute in H. discriminate.
Qed.

(** C1, amended: a prompt in a component file that is neither a public nor
    an API file, with a user-facing indicator in its surrounding code, is
    decided by the indicator tier, before the component tier is looked at:
    its context is user-facing, its confidence 75, its suggested action
    [register_badge], and it is not counted in [needsReview]. *)
Theorem component_with_indicator (p : Arg.t) (code : jsstring) :
  isComponentFile (Arg.filePath p) = true ->
  isPublicFile (Arg.filePath p) = false ->
  isApiFile (Arg.filePath p) = false ->
  Arg.surroundingCode p = Some code ->
  has_indicator (USER_FACING_PATTERNS module_store) code = true ->
  context (classify p) = user_facing /\
  confidence (classify p) = 75%Z /\
  suggestedAction (classify p) = register_badge /\
  is_needs_review (classify p) = false /\
  AuditResult.needsReview (fst (auditPrompts [p] module_store)) = 0.
Proof.
  intros _ Hpub _ Hcode Hind.
  destruct (classify_step_signals p module_store) as (Hc & Ha & _).
  fold (classify p) in Hc, Ha.
  assert (Hs : surrounding_of p = code).
  { unfold surrounding_of. rewrite Hcode. apply or_else_nil. }
  rewrite Hs, Hpub in Hc.
  rewrite (@has_indicator_some_test _ code (Arg.filePath p)
             (proj1 module_store_stateless) Hind) in Hc.
  simpl in Hc. injection Hc as Hctx Hconf.
  assert (Hnr : is_needs_review (classify p) = false).
  { unfold is_needs_review. rewrite Hctx, Hconf. reflexivity. }
  split; [exact Hctx|]. split; [exact Hconf|].
  split; [rewrite Ha, Hctx, Hconf; reflexivity|].
  split; [exact Hnr|].
  destruct (auditPrompts_counts [p] module_store) as (_ & _ & _ & Hn & _).
  rewrite Hn, auditPrompts_items. simpl. rewrite Hnr. reflexivity.
Qed.

Lemma component_with_indicator_witness :
  context (classify Samples.banner) = user_facing /\
  confidence (classify Samples.banner) = 75%Z /\
  suggestedAction (classify Samples.banner) = register_badge /\
  is_needs_review (classify Samples.banner) = false /\
  AuditResult.needsReview
    (fst (auditPrompts [Samples.banner] module_store)) = 0.
Proof.
  apply (@component_with_indicator Samples.banner (lit "<code>"));
    reflexivity.
Defined.

(** * Further properties *)

(** ** The matcher against the matches of a pattern *)

Lemma matcher_sound (i : bool) (r : regex) :
  forall s k e,
    matcher i r s k = Some e ->
    exists w rest, s = w ++ rest /\ lang i r w rest /\ k rest = Some e.
Proof.
  induction r as [|p| | |r1 IH1 r2 IH2|r1 IH1 r2 IH2|r1 IH1|r1 IH1];
    intros s k e H.
  - exists [], s. repeat split; [constructor|exact H].
  - destruct s as [|c s]; simpl in H; [discriminate|].
    destruct (char_eq i p c) eqn:Hc; [|discriminate].
    exists [c], s. repeat split; [constructor; exact Hc|exact H].
  - destruct s as [|c s]; simpl in H; [discriminate|].
    destruct (is_line_terminator c) eqn:Hc; [discriminate|].
    exists [c], s. repeat split; [constructor; exact Hc|exact H].
  - destruct s as [|c s]; simpl in H; [|discriminate].
    exists [], []. repeat split; [constructor|exact H].
  - simpl in H. apply IH1 in H. destruct H as (w1 & s1 & -> & L1 & H).
    apply IH2 in H. destruct H as (w2 & rest & -> & L2 & H).
    exists (w1 ++ w2), rest. rewrite <- app_assoc.
    repeat split; [constructor; assumption|exact H].
  - simpl in H. destruct (matcher i r1 s k) as [e1|] eqn:H1.
    + injection H as <-. apply IH1 in H1.
      destruct H1 as (w & rest & -> & L & Hk).
      exists w, rest. repeat split; [apply lang_Alt_l; exact L|exact Hk].
    + apply IH2 in H. destruct H as (w & rest & -> & L & Hk).
      exists w, rest. repeat split; [apply lang_Alt_r; exact L|exact Hk].
  - change (matcher i (Star r1) s k)
      with (star_loop (matcher i r1) k (length s) s) in H.
    remember (length s) as n eqn:Hn. clear Hn. revert s H.
    induction n as [|n IHn]; intros s H.
    + exists [], s. repeat split; [constructor|exact H].
    + rewrite star_loop_S in H.
      destruct (matcher i r1 s _) as [e1|] eqn:H1.
      * injection H as <-. apply IH1 in H1.
        destruct H1 as (w1 & s1 & -> & L1 & Hk).
        destruct (Nat.ltb_spec (length s1) (length (w1 ++ s1)))
          as [Hlt|Hge]; [|discriminate].
        apply IHn in Hk. destruct Hk as (w2 & rest & -> & L2 & Hk).
        exists (w1 ++ w2), rest. rewrite <- app_assoc.
        repeat split; [|exact Hk].
        apply lang_Star_more; try assumption.
        intros ->. simpl in Hlt. lia.
      * exists [], s. repeat split; [constructor|exact H].
  - simpl in H. destruct (matcher i r1 s k) as [e1|] eqn:H1.
    + injection H as <-. apply IH1 in H1.
      destruct H1 as (w & rest & -> & L & Hk).
      exists w, rest. repeat split; [apply lang_Opt_take; exact L|exact Hk].
    + exists [], s. repeat split; [constructor|exact H].
Qed.

Lemma matcher_complete (i : bool) (r : regex) (w rest : jsstring) :
  lang i r w rest ->
  forall k, k rest <> None -> matcher i r (w ++ rest) k <> None.
Proof.
  induction 1 as [rest|p c rest Hc|c rest Hc| |r1 r2 w1 w2 rest _ IH1 _ IH2
                 |r1 r2 w rest _ IH|r1 r2 w rest _ IH|r rest
                 |r w1 w2 rest Hne _ IH1 _ IH2|r rest|r w rest _ IH];
    intros k Hk.
  - exact Hk.
  - simpl. rewrite Hc. exact Hk.
  - simpl. rewrite Hc. exact Hk.
  - exact Hk.
  - simpl. rewrite <- app_assoc. apply IH1. apply IH2. exact Hk.
  - simpl. specialize (IH k Hk).
    destruct (matcher i r1 (w ++ rest) k); [discriminate|contradiction].
  - simpl. destruct (matcher i r1 (w ++ rest) k); [discriminate|].
    apply IH. exact Hk.
  - rewrite matcher_star. simpl.
    destruct (matcher i r rest _); [discriminate|exact Hk].
  - rewrite matcher_star, <- app_assoc.
    match goal with
    | |- match matcher i r ?s ?k' with _ => _ end <> None =>
        assert (Hm : matcher i r s k' <> None)
    end.
    { apply IH1.
      destruct (Nat.ltb_spec (length (w2 ++ rest))
                  (length (w1 ++ w2 ++ rest))) as [_|Hge].
      - apply IH2. exact Hk.
      - rewrite (length_app w1) in Hge. destruct w1; [contradiction|].
        simpl in Hge. lia. }
    destruct (matcher i r (w1 ++ w2 ++ rest) _);
      [discriminate|contradiction].
  - simpl. destruct (matcher i r rest k); [discriminate|exact Hk].
  - simpl. specialize (IH k Hk).
    destruct (matcher i r (w ++ rest) k); [discriminate|contradiction].
Qed.

Lemma search_iff (i : bool) (r : regex) (s : jsstring) (idx : nat) :
  search i r s idx <> None <-> found i r s.
Proof.
  split.
  - revert idx. induction s as [|c s IH]; intros idx H.
    + rewrite search_unfold in H.
      destruct (matcher i r [] _) as [e|] eqn:Hm; [|contradiction].
      apply matcher_sound in Hm. destruct Hm as (w & rest & Hs & L & _).
      exists [], w, rest. split; [exact Hs|exact L].
    + rewrite search_unfold in H.
      destruct (matcher i r (c :: s) _) as [e|] eqn:Hm.
      * apply matcher_sound in Hm. destruct Hm as (w & rest & Hs & L & _).
        exists [], w, rest. split; [exact Hs|exact L].
      * apply IH in H. destruct H as (pre & w & post & -> & L).
        exists (c :: pre), w, post. split; [reflexivity|exact L].
  - intros (pre & w & post & -> & L).
    pose proof (@matcher_complete i r w post L (fun e => Some e)) as Hm.
    destruct (matcher i r (w ++ post) (fun e => Some e)) as [e|] eqn:He.
    + exact (@search_found i r pre (w ++ post) e idx He).
    + exfalso. apply Hm; [discriminate|reflexivity].
Qed.

(** [/r/i.test(s)] is true exactly when [r] matches somewhere in [s]. *)
Lemma test_literal_iff (r : regex) (s : jsstring) :
  test_literal r s = true <-> found true r s.
Proof.
  rewrite <- (search_iff true r s 0).
  unfold test_literal, test, RegExpBuiltinExec. simpl.
  destruct (search true r s 0) as [[b e]|]; simpl; split; intros H;
    try reflexivity; try discriminate; contradiction.
Qed.

(** ** Patterns made of literals and [.*] *)

Lemma lang_Str (i : bool) (t : string) (w rest : jsstring) :
  lang i (Str t) w rest <->
  Forall2 (fun x y => char_eq i x y = true) (lit t) w.
Proof.
  revert w. induction t as [|a t IH]; intros w.
  - simpl. split; intros H; inversion H; subst; constructor.
  - destruct t as [|b t].
    + simpl. split; intros H.
      * inversion H; subst. repeat constructor. assumption.
      * inversion H as [|x y l l' Hxy Hl]; subst. inversion Hl; subst.
        constructor. exact Hxy.
    + change (Str (String a (String b t)))
        with (Seq (Chr (N_of_ascii a)) (Str (String b t))).
      change (lit (String a (String b t)))
        with (N_of_ascii a :: lit (String b t)).
      split; intros H.
      * inversion H as [| | | |r1 r2 w1 w2 rest' H1 H2| | | | | |]; subst.
        inversion H1; subst. simpl. constructor; [assumption|].
        apply IH. exact H2.
      * inversion H as [|x y l l' Hxy Hl]; subst.
        apply (@lang_Seq i _ _ [y] l' rest).
        -- constructor. exact Hxy.
        -- apply IH. exact Hl.
Qed.

Lemma lang_Star_Dot (i : bool) (w rest : jsstring) :
  lang i (Star Dot) w rest <-> on_one_line w.
Proof.
  split.
  - intros H. remember (Star Dot) as r eqn:Hr.
    induction H as [| | | | | | |r' rest'|r' w1 w2 rest' Hne H1 _ H2 IH2| |];
      try discriminate.
    + constructor.
    + injection Hr as ->. inversion H1; subst.
      constructor; [assumption|]. apply IH2. reflexivity.
  - intros H. induction H as [|c w Hc _ IH].
    + constructor.
    + apply (@lang_Star_more i Dot [c] w rest); [discriminate| |exact IH].
      constructor. exact Hc.
Qed.

Lemma lang_Seq_iff (i : bool) (r1 r2 : regex) (w rest : jsstring) :
  lang i (Seq r1 r2) w rest <->
  exists w1 w2, w = w1 ++ w2 /\ lang i r1 w1 (w2 ++ rest) /\ lang i r2 w2 rest.
Proof.
  split.
  - intros H. inversion H; subst. eauto.
  - intros (w1 & w2 & -> & H1 & H2). constructor; assumption.
Qed.

Lemma lang_Alt_iff (i : bool) (r1 r2 : regex) (w rest : jsstring) :
  lang i (Alt r1 r2) w rest <-> lang i r1 w rest \/ lang i r2 w rest.
Proof.
  split.
  - intros H. inversion H; subst; auto.
  - intros [H|H]; [apply lang_Alt_l|apply lang_Alt_r]; exact H.
Qed.

Lemma found_Alt (i : bool) (r1 r2 : regex) (s : jsstring) :
  found i (Alt r1 r2) s <-> found i r1 s \/ found i r2 s.
Proof.
  unfold found. split.
  - intros (pre & w & post & Hs & H). apply lang_Alt_iff in H.
    destruct H as [H|H]; [left|right]; eauto.
  - intros [(pre & w & post & Hs & H)|(pre & w & post & Hs & H)];
      exists pre, w, post; (split; [exact Hs|]); apply lang_Alt_iff; auto.
Qed.

(** One more word at the end of a chain. *)
Lemma chain_snoc (ws : list jsstring) (x w : jsstring) :
  ws <> [] ->
  (chain (ws ++ [x]) w <->
   exists a mid b,
     w = a ++ mid ++ b /\ chain ws a /\ on_one_line mid /\
     same_ignoring_case x b).
Proof.
  revert w. induction ws as [|y ws IH]; intros w Hne; [contradiction|].
  destruct ws as [|z ws].
  - simpl. split; intros (a & mid & b & H); exists a, mid, b; exact H.
  - change (chain ((y :: z :: ws) ++ [x]) w) with
      (exists a mid b,
          w = a ++ mid ++ b /\ same_ignoring_case y a /\
          on_one_line mid /\ chain ((z :: ws) ++ [x]) b).
    change (fun a => chain (y :: z :: ws) a) with
      (fun a => exists a1 m1 b1,
           a = a1 ++ m1 ++ b1 /\ same_ignoring_case y a1 /\
           on_one_line m1 /\ chain (z :: ws) b1).
    split.
    + intros (a & mid & b & -> & Ha & Hmid & Hb).
      apply IH in Hb; [|discriminate].
      destruct Hb as (a2 & m2 & b2 & -> & Ha2 & Hm2 & Hb2).
      exists (a ++ mid ++ a2), m2, b2. split; [|split; [|split]];
        try assumption.
      * rewrite <- !app_assoc. reflexivity.
      * exists a, mid, a2. repeat split; assumption.
    + intros (a & mid & b & -> & (a1 & m1 & b1 & -> & Ha1 & Hm1 & Hb1)
                & Hmid & Hb).
      exists a1, m1, (b1 ++ mid ++ b). split; [|split; [|split]];
        try assumption.
      * rewrite <- !app_assoc. reflexivity.
      * apply IH; [discriminate|]. exists b1, mid, b.
        repeat split; assumption.
Qed.

Lemma lang_chain_fold (more : list string) :
  forall (R : regex) (ws : list jsstring),
    ws <> [] ->
    (forall w rest, lang true R w rest <-> chain ws w) ->
    forall w rest,
      lang true (fold_left (fun r y => (r @ Star Dot @ Str y)%re) more R)
           w rest
      <-> chain (ws ++ map lit more) w.
Proof.
  induction more as [|y more IH]; intros R ws Hne HR w rest.
  - simpl. rewrite app_nil_r. apply HR.
  - simpl. change (lit y :: map lit more) with ([lit y] ++ map lit more).
    rewrite app_assoc. apply IH.
    + destruct ws; discriminate.
    + clear w rest. intros w rest. rewrite (chain_snoc (lit y) w Hne).
      rewrite lang_Seq_iff. split.
      * intros (w1 & w2 & -> & H1 & H2). apply lang_Seq_iff in H1.
        destruct H1 as (a & mid & -> & Ha & Hmid).
        apply HR in Ha. apply lang_Star_Dot in Hmid. apply lang_Str in H2.
        exists a, mid, w2. rewrite <- app_assoc.
        repeat split; assumption.
      * intros (a & mid & b & -> & Ha & Hmid & Hb).
        exists (a ++ mid), b. rewrite <- app_assoc.
        split; [reflexivity|]. split.
        -- apply lang_Seq_iff. exists a, mid. split; [reflexivity|].
           split; [apply HR; exact Ha|apply lang_Star_Dot; exact Hmid].
        -- apply lang_Str. exact Hb.
Qed.

Lemma lang_chain_regex (words : list string) (w rest : jsstring) :
  lang true (chain_regex words) w rest <-> chain (map lit words) w.
Proof.
  destruct words as [|x more].
  - simpl. split; intros H; [inversion H; reflexivity|subst; constructor].
  - unfold chain_regex.
    change (map lit (x :: more)) with ([lit x] ++ map lit more).
    apply lang_chain_fold; [discriminate|].
    intros w' rest'. apply lang_Str.
Qed.

Lemma found_chain_regex (words : list string) (s : jsstring) :
  found true (chain_regex words) s <-> contains_chain (map lit words) s.
Proof.
  unfold found, contains_chain. split;
    intros (pre & w & post & Hs & H); exists pre, w, post;
    (split; [exact Hs|]); apply lang_chain_regex in H + apply lang_chain_regex;
    exact H.
Qed.

Lemma found_alt_fold (cs : list (list string)) :
  forall (R : regex) (s : jsstring),
    found true (fold_left (fun r d => (r ||| chain_regex d)%re) cs R) s <->
    found true R s \/
    exists words, In words cs /\ contains_chain (map lit words) s.
Proof.
  induction cs as [|c cs IH]; intros R s; simpl.
  - split; [auto|]. intros [H|(ws & [] & _)]. exact H.
  - rewrite IH, found_Alt, found_chain_regex. split.
    + intros [[H|H]|(ws & Hin & H)]; eauto.
    + intros [H|(ws & [<-|Hin] & H)]; eauto.
Qed.

(** An alternation of chains is found in a text exactly when one of the
    chains is. *)
Lemma test_alt_regex (chains : list (list string)) (s : jsstring) :
  chains <> [] ->
  (test_literal (alt_regex chains) s = true <->
   exists words, In words chains /\ contains_chain (map lit words) s).
Proof.
  intros Hne. rewrite test_literal_iff.
  destruct chains as [|c cs]; [contradiction|].
  unfold alt_regex. rewrite found_alt_fold, found_chain_regex. split.
  - intros [H|(ws & Hin & H)]; [exists c|exists ws]; simpl; auto.
  - intros (ws & [<-|Hin] & H); eauto.
Qed.

(** ** What the path tests and the indicator tables look for *)

(** X1: the API-file test is true exactly for the paths that contain [api/],
    [.server.] or [route.ts], in any case of the letters. *)
Theorem isApiFile_iff (fp : jsstring) :
  isApiFile fp = true <->
  contains_ci (lit "api/") fp \/ contains_ci (lit ".server.") fp \/
  contains_ci (lit "route.ts") fp.
Proof.
  unfold isApiFile.
  change api_file_re with (alt_regex api_file_chains).
  rewrite test_alt_regex by discriminate. split.
  - intros (ws & Hin & H). simpl in Hin.
    destruct Hin as [<-|[<-|[<-|[]]]]; auto.
  - intros [H|[H|H]];
      [exists ["api/"%string]|exists [".server."%string]
      |exists ["route.ts"%string]];
      (split; [simpl; auto|exact H]).
Qed.

(** X2: the public-file test is true exactly for the paths that contain
    [public/], or [PROMPT_] followed on the same line by [.txt], in any
    case of the letters. *)
Theorem isPublicFile_iff (fp : jsstring) :
  isPublicFile fp = true <->
  contains_ci (lit "public/") fp \/
  contains_chain [lit "PROMPT_"; lit ".txt"] fp.
Proof.
  unfold isPublicFile.
  change public_file_re with (alt_regex public_file_chains).
  rewrite test_alt_regex by discriminate. split.
  - intros (ws & Hin & H). simpl in Hin.
    destruct Hin as [<-|[<-|[]]]; auto.
  - intros [H|H];
      [exists ["public/"%string]|exists ["PROMPT_"%string; ".txt"%string]];
      (split; [simpl; auto|exact H]).
Qed.

Lemma lang_Opt_iff (i : bool) (r : regex) (w rest : jsstring) :
  lang i (Opt r) w rest <-> w = [] \/ lang i r w rest.
Proof.
  split.
  - intros H. inversion H; subst; auto.
  - intros [->|H]; [apply lang_Opt_skip|apply lang_Opt_take; exact H].
Qed.

Lemma lang_Eol_iff (i : bool) (w rest : jsstring) :
  lang i Eol w rest <-> w = [] /\ rest = [].
Proof.
  split.
  - intros H. inversion H; subst; auto.
  - intros [-> ->]. constructor.
Qed.

(** X3: the component-file test is true exactly for the paths that contain
    [component/] or [components/], or end with [.tsx], in any case of the
    letters. *)
Theorem isComponentFile_iff (fp : jsstring) :
  isComponentFile fp = true <->
  contains_ci (lit "component/") fp \/ contains_ci (lit "components/") fp \/
  ends_with_ci (lit ".tsx") fp.
Proof.
  unfold isComponentFile, component_file_re.
  rewrite test_literal_iff, found_Alt. unfold found. split.
  - intros [(pre & w & post & -> & H)|(pre & w & post & -> & H)].
    + apply lang_Seq_iff in H. destruct H as (w1 & wb & -> & H1 & Hb).
      apply lang_Seq_iff in H1. destruct H1 as (wa & wo & -> & Ha & Ho).
      apply lang_Str in Ha, Hb. apply lang_Opt_iff in Ho.
      destruct Ho as [->|Ho].
      * left. exists pre, (wa ++ wb), post. rewrite app_nil_r.
        split; [reflexivity|].
        change (lit "component/") with (lit "component" ++ lit "/").
        apply Forall2_app; assumption.
      * apply lang_Str in Ho. right. left.
        exists pre, ((wa ++ wo) ++ wb), post. split; [reflexivity|].
        change (lit "components/")
          with ((lit "component" ++ lit "s") ++ lit "/").
        repeat apply Forall2_app; assumption.
    + apply lang_Seq_iff in H. destruct H as (w1 & w2 & -> & H1 & H2).
      apply lang_Str in H1. apply lang_Eol_iff in H2. destruct H2 as [-> ->].
      right. right. exists pre, w1. rewrite !app_nil_r.
      split; [reflexivity|exact H1].
  - intros [(pre & w & post & -> & H)|[(pre & w & post & -> & H)
                                      |(pre & w & -> & H)]].
    + left. change (lit "component/") with (lit "component" ++ lit "/") in H.
      apply Forall2_app_inv_l in H. destruct H as (wa & wb & Ha & Hb & ->).
      exists pre, (wa ++ wb), post. split; [reflexivity|].
      apply lang_Seq_iff. exists wa, wb. split; [reflexivity|]. split.
      * apply lang_Seq_iff. exists wa, []. rewrite app_nil_r.
        split; [reflexivity|]. split; [apply lang_Str; exact Ha|].
        apply lang_Opt_skip.
      * apply lang_Str. exact Hb.
    + left.
      change (lit "components/")
        with ((lit "component" ++ lit "s") ++ lit "/") in H.
      apply Forall2_app_inv_l in H. destruct H as (w1 & wb & H1 & Hb & ->).
      apply Forall2_app_inv_l in H1. destruct H1 as (wa & wo & Ha & Ho & ->).
      exists pre, ((wa ++ wo) ++ wb), post. split; [reflexivity|].
      apply lang_Seq_iff. exists (wa ++ wo), wb. split; [reflexivity|].
      split.
      * apply lang_Seq_iff. exists wa, wo. split; [reflexivity|].
        split; [apply lang_Str; exact Ha|].
        apply lang_Opt_take. apply lang_Str. exact Ho.
      * apply lang_Str. exact Hb.
    + right. exists pre, w, []. split; [rewrite app_nil_r; reflexivity|].
      apply lang_Seq_iff. exists w, []. rewrite app_nil_r.
      split; [reflexivity|]. split; [apply lang_Str; exact H|constructor].
Qed.

Lemma existsb_orb (A : Type) (f g : A -> bool) (l : list A) :
  existsb (fun x => f x || g x) l = existsb f l || existsb g l.
Proof.
  induction l as [|x l IH]; simpl; [reflexivity|]. rewrite IH.
  destruct (f x), (g x), (existsb f l), (existsb g l); reflexivity.
Qed.

Lemma has_indicator_chains (table : list (list (list string)))
    (text : jsstring) :
  Forall (fun cs => cs <> []) table ->
  (has_indicator (map (fun cs => re_i (alt_regex cs)) table) text = true <->
   has_chain table text).
Proof.
  intros Hne. unfold has_indicator, has_chain. rewrite existsb_exists. split.
  - intros (R & HR & Ht). apply in_map_iff in HR.
    destruct HR as (cs & <- & Hcs).
    apply (test_alt_regex text) in Ht;
      [|exact (proj1 (Forall_forall _ _) Hne cs Hcs)].
    destruct Ht as (ws & Hin & H). exists ws. split; [|exact H].
    apply in_concat. exists cs. split; assumption.
  - intros (ws & Hin & H). apply in_concat in Hin.
    destruct Hin as (cs & Hcs & Hin).
    exists (re_i (alt_regex cs)).
    split; [exact (in_map (fun cs => re_i (alt_regex cs)) table cs Hcs)|].
    apply (test_alt_regex text);
      [exact (proj1 (Forall_forall _ _) Hne cs Hcs)|].
    exists ws. split; assumption.
Qed.

Lemma some_test_module (table : list (list (list string)))
    (surrounding filePath : jsstring) :
  Forall (fun cs => cs <> []) table ->
  (fst (some_test (map (fun cs => re_i (alt_regex cs)) table)
          surrounding filePath) = true <->
   has_chain table surrounding \/ has_chain table filePath).
Proof.
  intros Hne. rewrite some_test_stateless.
  - simpl. rewrite existsb_orb, orb_true_iff.
    fold (has_indicator (map (fun cs => re_i (alt_regex cs)) table)
            surrounding).
    fold (has_indicator (map (fun cs => re_i (alt_regex cs)) table)
            filePath).
    rewrite !has_indicator_chains by exact Hne. reflexivity.
  - apply Forall_forall. intros R HR. apply in_map_iff in HR.
    destruct HR as (cs & <- & _). reflexivity.
Qed.

(** X4: [hasUserFacingIndicators] is true exactly when the surrounding code or
    the file path contains one of the chains of the user-facing table:
    [copy...button], [copyable], [clipboard], [onClick...copy],
    [handleCopy], [data-prompt], [promptText...prop], [user...can...copy],
    [copy...to...clipboard], [<pre>], [<code>], [CodeBlock],
    [PROMPT_....txt] or [public/...prompt], in any case of the letters and
    with the dots standing for text without a line break. *)
Theorem hasUserFacingIndicators_iff (surrounding filePath : jsstring) :
  fst (some_test (USER_FACING_PATTERNS module_store) surrounding filePath)
    = true <->
  has_chain user_facing_chains surrounding \/
  has_chain user_facing_chains filePath.
Proof.
  change (USER_FACING_PATTERNS module_store)
    with (map (fun cs => re_i (alt_regex cs)) user_facing_chains).
  apply some_test_module. repeat constructor; discriminate.
Qed.

(** X5: [hasInternalIndicators] is true exactly when the surrounding code or
    the file path contains one of the words of the internal table:
    [api/], [server], [backend], [process.env], [getServerSide],
    [internal], [private], [system], [.server.] or [route.ts], in any case
    of the letters. *)
Theorem hasInternalIndicators_iff (surrounding filePath : jsstring) :
  fst (some_test (INTERNAL_PATTERNS module_store) surrounding filePath)
    = true <->
  has_chain internal_chains surrounding \/
  has_chain internal_chains filePath.
Proof.
  change (INTERNAL_PATTERNS module_store)
    with (map (fun cs => re_i (alt_regex cs)) internal_chains).
  apply some_test_module. repeat constructor; discriminate.
Qed.

(** ** The case of the letters does not matter *)

Lemma char_eq_iff (x y : code_unit) :
  char_eq true x y = true <-> canonicalize true x = canonicalize true y.
Proof. unfold char_eq. apply N.eqb_eq. Qed.

Lemma char_eq_trans (x y z : code_unit) :
  char_eq true x y = true -> char_eq true y z = true ->
  char_eq true x z = true.
Proof. rewrite !char_eq_iff. congruence. Qed.

Lemma char_eq_sym (x y : code_unit) :
  char_eq true x y = true -> char_eq true y x = true.
Proof. rewrite !char_eq_iff. congruence. Qed.

Lemma char_eq_line_terminator (x y : code_unit) :
  char_eq true x y = true -> is_line_terminator x = is_line_terminator y.
Proof.
  rewrite char_eq_iff. unfold canonicalize, is_line_terminator. simpl andb.
  intros H.
  destruct (N.leb_spec 97 x), (N.leb_spec x 122),
           (N.leb_spec 97 y), (N.leb_spec y 122); simpl in H;
    repeat match goal with
           | |- context [N.eqb ?a ?b] => destruct (N.eqb_spec a b)
           end; simpl; try reflexivity; lia.
Qed.

Lemma same_ignoring_case_sym (a b : jsstring) :
  same_ignoring_case a b -> same_ignoring_case b a.
Proof.
  induction 1; constructor; [apply char_eq_sym|]; assumption.
Qed.

Lemma lang_ignores_case (r : regex) (w rest : jsstring) :
  lang true r w rest ->
  forall w' rest',
    same_ignoring_case w w' -> same_ignoring_case rest rest' ->
    lang true r w' rest'.
Proof.
  induction 1 as [rest|p c rest Hc|c rest Hc| |r1 r2 w1 w2 rest _ IH1 _ IH2
                 |r1 r2 w rest _ IH|r1 r2 w rest _ IH|r rest
                 |r w1 w2 rest Hne _ IH1 _ IH2|r rest|r w rest _ IH];
    intros w' rest' Hw Hrest.
  - inversion Hw; subst. constructor.
  - inversion Hw as [|x y l l' Hxy Hl]; subst. inversion Hl; subst.
    constructor. exact (char_eq_trans _ _ _ Hc Hxy).
  - inversion Hw as [|x y l l' Hxy Hl]; subst. inversion Hl; subst.
    constructor. rewrite <- (char_eq_line_terminator _ _ Hxy). exact Hc.
  - inversion Hw; subst. inversion Hrest; subst. constructor.
  - apply Forall2_app_inv_l in Hw. destruct Hw as (w1' & w2' & H1 & H2 & ->).
    constructor.
    + apply IH1; [exact H1|]. apply Forall2_app; assumption.
    + apply IH2; assumption.
  - apply lang_Alt_l. apply IH; assumption.
  - apply lang_Alt_r. apply IH; assumption.
  - inversion Hw; subst. constructor.
  - apply Forall2_app_inv_l in Hw. destruct Hw as (w1' & w2' & H1 & H2 & ->).
    apply lang_Star_more.
    + intros ->. inversion H1; subst. contradiction.
    + apply IH1; [exact H1|]. apply Forall2_app; assumption.
    + apply IH2; assumption.
  - inversion Hw; subst. constructor.
  - apply lang_Opt_take. apply IH; assumption.
Qed.

Lemma found_ignores_case (r : regex) (s s' : jsstring) :
  same_ignoring_case s s' -> found true r s -> found true r s'.
Proof.
  intros Hs (pre & w & post & -> & H).
  apply Forall2_app_inv_l in Hs. destruct Hs as (pre' & t & Hpre & Ht & ->).
  apply Forall2_app_inv_l in Ht. destruct Ht as (w' & post' & Hw & Hpost & ->).
  exists pre', w', post'. split; [reflexivity|].
  exact (lang_ignores_case H Hw Hpost).
Qed.

Lemma test_literal_ignores_case (r : regex) (s s' : jsstring) :
  same_ignoring_case s s' -> test_literal r s = test_literal r s'.
Proof.
  intros Hs. apply eq_true_iff_eq. rewrite !test_literal_iff.
  split; apply found_ignores_case;
    [exact Hs|apply same_ignoring_case_sym; exact Hs].
Qed.

Lemma some_test_ignores_case (rs : list regex) (s s' f f' : jsstring) :
  same_ignoring_case s s' -> same_ignoring_case f f' ->
  fst (some_test (map re_i rs) s f) = fst (some_test (map re_i rs) s' f').
Proof.
  intros Hs Hf.
  assert (Hst : stateless (map re_i rs)).
  { apply Forall_forall. intros R HR. apply in_map_iff in HR.
    destruct HR as (r & <- & _). reflexivity. }
  rewrite !some_test_stateless by exact Hst. simpl.
  clear Hst. induction rs as [|r rs IH]; simpl; [reflexivity|].
  fold (test_literal r s). fold (test_literal r s').
  fold (test_literal r f). fold (test_literal r f').
  rewrite (test_literal_ignores_case r Hs), (test_literal_ignores_case r Hf),
    IH. reflexivity.
Qed.

(** X6: two prompts whose file paths and surrounding codes differ only in the
    case of ASCII letters get the same context, confidence and suggested
    action. *)
Theorem classification_ignores_case (p p' : Arg.t) :
  same_ignoring_case (Arg.filePath p) (Arg.filePath p') ->
  same_ignoring_case (surrounding_of p) (surrounding_of p') ->
  context (classify p) = context (classify p') /\
  confidence (classify p) = confidence (classify p') /\
  suggestedAction (classify p) = suggestedAction (classify p').
Proof.
  intros Hf Hs.
  destruct (classify_step_signals p module_store) as (Hc & Ha & _).
  destruct (classify_step_signals p' module_store) as (Hc' & Ha' & _).
  fold (classify p) in Hc, Ha. fold (classify p') in Hc', Ha'.
  assert (H : (context (classify p), confidence (classify p)) =
              (context (classify p'), confidence (classify p'))).
  { rewrite Hc, Hc'. unfold isPublicFile, isApiFile, isComponentFile.
    rewrite (test_literal_ignores_case public_file_re Hf),
      (test_literal_ignores_case api_file_re Hf),
      (test_literal_ignores_case component_file_re Hf).
    change (USER_FACING_PATTERNS module_store)
      with (map re_i (map source (USER_FACING_PATTERNS module_store))).
    change (INTERNAL_PATTERNS module_store)
      with (map re_i (map source (INTERNAL_PATTERNS module_store))).
    rewrite (some_test_ignores_case _ Hs Hf).
    rewrite (some_test_ignores_case
               (map source (INTERNAL_PATTERNS module_store)) Hs Hf).
    reflexivity. }
  injection H as H1 H2. rewrite Ha, Ha', H1, H2. repeat split.
Qed.

Lemma classification_ignores_case_witness :
  context (classify Samples.banner) = context (classify banner_in_capitals) /\
  confidence (classify Samples.banner)
    = confidence (classify banner_in_capitals) /\
  suggestedAction (classify Samples.banner)
    = suggestedAction (classify banner_in_capitals).
Proof.
  apply (@classification_ignores_case Samples.banner banner_in_capitals);
    repeat constructor.
Defined.

(** ** When a prompt is sent to review *)

(** X7: a prompt is sent to review exactly when its path is neither a public
    nor an API file and neither table has an indicator for it; whether it
    is a component file changes the confidence (60 instead of 50) and
    nothing else. *)
Theorem review_iff_no_signal (p : Arg.t) (st : Store) :
  let c := fst (classify_step p st) in
  let fp := Arg.filePath p in
  let hasUserFacing :=
    fst (some_test (USER_FACING_PATTERNS st) (surrounding_of p) fp) in
  let hasInternal :=
    fst (some_test (INTERNAL_PATTERNS st) (surrounding_of p) fp) in
  (suggestedAction c = review <->
     isPublicFile fp = false /\ hasUserFacing = false /\
     isApiFile fp = false /\ hasInternal = false) /\
  (suggestedAction c = review <-> context c = unknown) /\
  match suggestedAction c with
  | review => confidence c = (if isComponentFile fp then 60 else 50)%Z
  | _ => True
  end.
Proof.
  intros c fp uf it.
  destruct (classify_step_signals p st) as (Hc & Ha & _).
  fold c fp uf it in Hc, Ha. rewrite Ha.
  destruct (isPublicFile fp), uf, (isApiFile fp), it, (isComponentFile fp);
    simpl in Hc; injection Hc as E1 E2; rewrite E1, E2;
    clear; cbv; intuition congruence.
Qed.

(** ** The counts and the suggested actions *)

Lemma well_formed_actions (c : PromptCandidate) :
  well_formed c ->
  is_user_facing c = SuggestedAction_eqb (suggestedAction c) register_badge /\
  is_internal c = SuggestedAction_eqb (suggestedAction c) audit_only /\
  is_needs_review c = SuggestedAction_eqb (suggestedAction c) review.
Proof.
  intros H. pose proof H as (_ & Ha & _).
  unfold is_user_facing, is_internal, is_needs_review. rewrite Ha.
  context_cases c H; repeat split.
Qed.

(** X8: in every result of [auditPrompts], [userFacing] is the number of items
    whose suggested action is [register_badge], [internal] the number of
    those with [audit_only] and [needsReview] the number of those with
    [review]. *)
Theorem counts_match_actions (ps : list Arg.t) (st : Store) :
  let r := fst (auditPrompts ps st) in
  let items := AuditResult.prompts r in
  AuditResult.userFacing r =
    count_if (fun c => SuggestedAction_eqb (suggestedAction c) register_badge)
             items /\
  AuditResult.internal r =
    count_if (fun c => SuggestedAction_eqb (suggestedAction c) audit_only)
             items /\
  AuditResult.needsReview r =
    count_if (fun c => SuggestedAction_eqb (suggestedAction c) review) items.
Proof.
  intros r items.
  assert (Hwf : Forall well_formed items)
    by (apply auditPrompts_Forall; exact classify_step_wf).
  destruct (auditPrompts_counts ps st) as (_ & Hu & Hi & Hn & _).
  fold r items in Hu, Hi, Hn.
  rewrite Hu, Hi, Hn, !filter_length_count.
  repeat split; apply count_if_ext; (eapply Forall_impl; [|exact Hwf]);
    intros c Hc; apply (well_formed_actions Hc).
Qed.

(** ** Batches put together, batches reordered *)

Lemma count_if_app (A : Type) (f : A -> bool) (l1 l2 : list A) :
  count_if f (l1 ++ l2) = count_if f l1 + count_if f l2.
Proof. induction l1 as [|x l1 IH]; simpl; [reflexivity|]. rewrite IH. lia. Qed.

Lemma auditPrompts_counts_module (ps : list Arg.t) :
  counts (fst (auditPrompts ps module_store)) =
    (length ps, count_if is_user_facing (map classify ps),
     count_if is_internal (map classify ps),
     count_if is_needs_review (map classify ps)).
Proof.
  destruct (auditPrompts_counts ps module_store) as (Ht & Hu & Hi & Hn & _).
  unfold counts. rewrite Ht, Hu, Hi, Hn, !filter_length_count.
  rewrite auditPrompts_items, length_map. reflexivity.
Qed.

(** X9: auditing two batches as one gives the items of the first followed by
    the items of the second, and each count is the sum of the two. *)
Theorem audit_of_concatenation (ps1 ps2 : list Arg.t) :
  let r := fst (auditPrompts (ps1 ++ ps2) module_store) in
  let r1 := fst (auditPrompts ps1 module_store) in
  let r2 := fst (auditPrompts ps2 module_store) in
  AuditResult.prompts r = AuditResult.prompts r1 ++ AuditResult.prompts r2 /\
  AuditResult.totalFound r
    = AuditResult.totalFound r1 + AuditResult.totalFound r2 /\
  AuditResult.userFacing r
    = AuditResult.userFacing r1 + AuditResult.userFacing r2 /\
  AuditResult.internal r
    = AuditResult.internal r1 + AuditResult.internal r2 /\
  AuditResult.needsReview r
    = AuditResult.needsReview r1 + AuditResult.needsReview r2.
Proof.
  intros r r1 r2.
  pose proof (auditPrompts_counts_module (ps1 ++ ps2)) as H.
  pose proof (auditPrompts_counts_module ps1) as H1.
  pose proof (auditPrompts_counts_module ps2) as H2.
  fold r in H. fold r1 in H1. fold r2 in H2. unfold counts in H, H1, H2.
  rewrite map_app, !count_if_app, length_app in H.
  injection H as -> -> -> ->. injection H1 as -> -> -> ->.
  injection H2 as -> -> -> ->.
  split; [|repeat split].
  subst r r1 r2. rewrite !auditPrompts_items. apply map_app.
Qed.

Lemma count_if_Permutation (A : Type) (f : A -> bool) (l l' : list A) :
  Permutation l l' -> count_if f l = count_if f l'.
Proof.
  induction 1 as [|x l l' _ IH|x y l|l l' l'' _ IH1 _ IH2]; simpl;
    [reflexivity|rewrite IH; reflexivity|lia|congruence].
Qed.

(** X10: auditing the same prompts in another order gives the same four counts
    and the same summary, and the same items in the new order. *)
Theorem audit_of_permutation (ps ps' : list Arg.t) :
  Permutation ps ps' ->
  let r := fst (auditPrompts ps module_store) in
  let r' := fst (auditPrompts ps' module_store) in
  counts r = counts r' /\
  AuditResult.summary r = AuditResult.summary r' /\
  Permutation (AuditResult.prompts r) (AuditResult.prompts r').
Proof.
  intros Hperm r r'.
  assert (Hcounts : counts r = counts r').
  { subst r r'. rewrite !auditPrompts_counts_module.
    pose proof (Permutation_map classify Hperm) as Hm.
    rewrite (Permutation_length Hperm),
      (count_if_Permutation is_user_facing Hm),
      (count_if_Permutation is_internal Hm),
      (count_if_Permutation is_needs_review Hm). reflexivity. }
  split; [exact Hcounts|]. split.
  - destruct (auditPrompts_counts ps module_store) as (_ & _ & _ & _ & Hs).
    destruct (auditPrompts_counts ps' module_store) as (_ & _ & _ & _ & Hs').
    fold r in Hs. fold r' in Hs'. rewrite Hs, Hs'.
    unfold counts in Hcounts. injection Hcounts as -> -> -> ->. reflexivity.
  - subst r r'. rewrite !auditPrompts_items. apply Permutation_map.
    exact Hperm.
Qed.

Lemma audit_of_permutation_witness :
  counts (fst (auditPrompts [Samples.banner; Samples.config; Samples.welcome]
                 module_store))
  = counts (fst (auditPrompts [Samples.welcome; Samples.banner;
                               Samples.config] module_store)).
Proof.
  apply (@audit_of_permutation
           [Samples.banner; Samples.config; Samples.welcome]
           [Samples.welcome; Samples.banner; Samples.config]).
  apply Permutation_sym.
  apply (Permutation_cons_app [Samples.banner; Samples.config] []).
  apply Permutation_refl.
Defined.

(** ** More on the preview *)

Lemma make_preview_idempotent (t : jsstring) :
  make_preview (make_preview t) = make_preview t /\
  firstn 100 (make_preview t) = firstn 100 t.
Proof.
  unfold make_preview, substring0.
  destruct (Nat.ltb_spec 100 (length t)) as [Hlong|Hshort].
  - assert (Hlen : length (firstn 100 t) = 100)
      by (rewrite length_firstn; lia).
    assert (Hf : firstn 100 (firstn 100 t ++ lit "...") = firstn 100 t).
    { rewrite firstn_app, Hlen, Nat.sub_diag. simpl firstn at 2.
      rewrite app_nil_r. apply firstn_all2. lia. }
    rewrite Hf, length_app, Hlen, lit_dots_length. simpl. split; reflexivity.
  - rewrite app_nil_r, (firstn_all2 t Hshort).
    destruct (Nat.ltb_spec 100 (length t)); [lia|].
    rewrite app_nil_r, (firstn_all2 t Hshort). split; reflexivity.
Qed.

(** X11: the preview of a classified prompt and its text agree on their first
    100 code units, and a preview is its own preview: cutting it again
    changes nothing. *)
Theorem preview_stable (p : Arg.t) (st : Store) :
  let c := fst (classify_step p st) in
  firstn 100 (preview c) = firstn 100 (Arg.promptText p) /\
  make_preview (preview c) = preview c /\
  preview (fst (classify_step
                  (Arg.mk (Arg.filePath p) (Arg.lineNumber p) (preview c)
                          (Arg.surroundingCode p)) st)) = preview c.
Proof.
  intros c.
  destruct (classify_step_signals p st) as (_ & _ & Hp & _).
  fold c in Hp.
  destruct (make_preview_idempotent (Arg.promptText p)) as [Hi Hf].
  split; [rewrite Hp; exact Hf|]. split; [rewrite Hp; exact Hi|].
  match goal with
  | |- preview (fst (classify_step ?q st)) = _ =>
      destruct (classify_step_signals q st) as (_ & _ & Hq & _)
  end.
  rewrite Hq. simpl. rewrite Hp. exact Hi.
Qed.

(** ** The lists of the guidance *)





(** ** The summary can be read back *)

Lemma lit_inj (s t : string) : lit s = lit t -> s = t.
Proof.
  revert t. induction s as [|a s IH]; intros [|b t] H;
    try discriminate; [reflexivity|].
  simpl in H. injection H as Hab Hst. f_equal; [|apply IH; exact Hst].
  rewrite <- (ascii_N_embedding a), <- (ascii_N_embedding b), Hab.
  reflexivity.
Qed.

Lemma nat_to_string_inj (n m : nat) :
  nat_to_string n = nat_to_string m -> n = m.
Proof.
  unfold nat_to_string. intros H. apply lit_inj in H.
  assert (Hu : Some (Nat.to_uint n) = Some (Nat.to_uint m))
    by (rewrite <- !NilEmpty.usu, H; reflexivity).
  injection Hu as Hu.
  rewrite <- (Unsigned.of_to n), <- (Unsigned.of_to m), Hu. reflexivity.
Qed.

Lemma nat_to_string_digits (n : nat) :
  Forall (fun c => is_digit c = true) (nat_to_string n).
Proof.
  unfold nat_to_string. generalize (Nat.to_uint n). intros d.
  induction d; simpl; constructor; try reflexivity; assumption.
Qed.

Lemma digits_split (d1 d2 r1 r2 : jsstring) (x : code_unit) :
  Forall (fun c => is_digit c = true) d1 ->
  Forall (fun c => is_digit c = true) d2 ->
  is_digit x = false ->
  d1 ++ x :: r1 = d2 ++ x :: r2 -> d1 = d2 /\ r1 = r2.
Proof.
  intros H1. revert d2. induction H1 as [|c d1 Hc _ IH]; intros d2 H2 Hx H.
  - destruct H2 as [|c' d2 Hc' _]; simpl in H.
    + injection H as ->. split; reflexivity.
    + injection H as -> _. congruence.
  - destruct H2 as [|c' d2 Hc' H2]; simpl in H.
    + injection H as <- _. congruence.
    + injection H as <- H. destruct (IH d2 H2 Hx H) as [-> ->].
      split; reflexivity.
Qed.

Lemma digits_split_lit (d1 d2 r1 r2 l : jsstring) (x : code_unit) :
  Forall (fun c => is_digit c = true) d1 ->
  Forall (fun c => is_digit c = true) d2 ->
  is_digit x = false ->
  d1 ++ (x :: l) ++ r1 = d2 ++ (x :: l) ++ r2 -> d1 = d2 /\ r1 = r2.
Proof.
  intros H1 H2 Hx H. simpl in H.
  destruct (@digits_split d1 d2 (l ++ r1) (l ++ r2) x H1 H2 Hx H) as [Hd Hr].
  split; [exact Hd|]. exact (app_inv_head _ _ _ Hr).
Qed.

Lemma make_summary_inj (a b c d a' b' c' d' : nat) :
  make_summary a b c d = make_summary a' b' c' d' ->
  (a, b, c, d) = (a', b', c', d').
Proof.
  unfold make_summary. intros H. apply app_inv_head in H.
  apply (@digits_split_lit _ _ _ _ (lit "prompts: ") 32%N) in H;
    [|apply nat_to_string_digits|apply nat_to_string_digits|reflexivity].
  destruct H as [Ha H].
  apply (@digits_split_lit _ _ _ _ (lit "user-facing (recommend badges), ")
           32%N) in H;
    [|apply nat_to_string_digits|apply nat_to_string_digits|reflexivity].
  destruct H as [Hb H].
  apply (@digits_split_lit _ _ _ _ (lit "internal (audit only), ") 32%N) in H;
    [|apply nat_to_string_digits|apply nat_to_string_digits|reflexivity].
  destruct H as [Hc H]. apply app_inv_tail in H.
  apply nat_to_string_inj in Ha, Hb, Hc, H. subst. reflexivity.
Qed.

(** X13: two results of [auditPrompts] with the same summary have the same four
    counts: the summary can be read back. *)
Theorem summary_determines_counts (ps ps' : list Arg.t) (st st' : Store) :
  AuditResult.summary (fst (auditPrompts ps st))
    = AuditResult.summary (fst (auditPrompts ps' st')) ->
  counts (fst (auditPrompts ps st)) = counts (fst (auditPrompts ps' st')).
Proof.
  destruct (auditPrompts_counts ps st) as (_ & _ & _ & _ & Hs).
  destruct (auditPrompts_counts ps' st') as (_ & _ & _ & _ & Hs').
  rewrite Hs, Hs'. intros H. apply make_summary_inj in H. exact H.
Qed.

Lemma summary_determines_counts_witness :
  counts (fst (auditPrompts [Samples.banner] module_store))
  = counts (fst (auditPrompts [banner_in_capitals] module_store)).
Proof.
  apply (@summary_determines_counts [Samples.banner] [banner_in_capitals]
           module_store module_store).
  vm_compute. reflexivity.
Defined.

(** ** The API-file test and the internal table *)

(** X15: every path that passes the API-file test has an internal indicator,
    because the last pattern of the internal table looks for the same three
    words; so the condition [isApiFile || hasInternalIndicators] of the
    second branch is [hasInternalIndicators] alone, and [isApiFile] only
    chooses between the confidences 90 and 70. *)
Theorem api_file_has_internal_indicator (surrounding filePath : jsstring) :
  let hasInternalIndicators :=
    fst (some_test (INTERNAL_PATTERNS module_store) surrounding filePath) in
  isApiFile filePath || hasInternalIndicators = hasInternalIndicators.
Proof.
  intros it. destruct (isApiFile filePath) eqn:Hapi; [|reflexivity].
  simpl. symmetry. subst it.
  change (INTERNAL_PATTERNS module_store)
    with (map (fun cs => re_i (alt_regex cs)) internal_chains).
  apply some_test_module; [repeat constructor; discriminate|]. right.
  unfold isApiFile in Hapi.
  change api_file_re with (alt_regex api_file_chains) in Hapi.
  apply test_alt_regex in Hapi; [|discriminate].
  destruct Hapi as (ws & Hin & H). exists ws. split; [|exact H].
  simpl in Hin. destruct Hin as [<-|[<-|[<-|[]]]]; simpl; tauto.
Qed.

(** ** More surrounding code *)

Lemma contains_chain_extend (words : list jsstring) (a s b : jsstring) :
  contains_chain words s -> contains_chain words (a ++ s ++ b).
Proof.
  intros (pre & w & post & -> & H). exists (a ++ pre), w, (post ++ b).
  split; [rewrite <- !app_assoc; reflexivity|exact H].
Qed.

Lemma has_chain_extend (table : list (list (list string))) (a s b : jsstring) :
  has_chain table s -> has_chain table (a ++ s ++ b).
Proof.
  intros (ws & Hin & H). exists ws. split; [exact Hin|].
  apply contains_chain_extend. exact H.
Qed.

(** X16: a prompt classified as user-facing stays user-facing, with the same
    confidence and the action [register_badge], when more code is given
    before and after its surrounding code. *)
Theorem more_context_keeps_user_facing (p : Arg.t) (before after : jsstring) :
  context (classify p) = user_facing ->
  let p' := with_more_context before after p in
  context (classify p') = user_facing /\
  confidence (classify p') = confidence (classify p) /\
  suggestedAction (classify p') = register_badge.
Proof.
  intros Hctx p'.
  destruct (classify_step_signals p module_store) as (Hc & _).
  destruct (classify_step_signals p' module_store) as (Hc' & Ha' & _).
  fold (classify p) in Hc. fold (classify p') in Hc', Ha'.
  change (Arg.filePath p') with (Arg.filePath p) in Hc'.
  assert (Hs : surrounding_of p' = before ++ surrounding_of p ++ after)
    by apply or_else_nil.
  rewrite Hs in Hc'. rewrite Hctx in Hc.
  set (U := fst (some_test (USER_FACING_PATTERNS module_store)
                   (surrounding_of p) (Arg.filePath p))) in *.
  set (U' := fst (some_test (USER_FACING_PATTERNS module_store)
                    (before ++ surrounding_of p ++ after) (Arg.filePath p)))
    in *.
  assert (HU : U = true -> U' = true).
  { subst U U'.
    change (USER_FACING_PATTERNS module_store)
      with (map (fun cs => re_i (alt_regex cs)) user_facing_chains).
    assert (Hne : Forall (fun cs : list (list string) => cs <> [])
                         user_facing_chains)
      by (repeat constructor; discriminate).
    rewrite !(some_test_module _ _ Hne).
    intros [H|H]; [left; apply has_chain_extend; exact H|right; exact H]. }
  destruct (isPublicFile (Arg.filePath p)).
  - simpl in Hc, Hc'. injection Hc as Hconf. injection Hc' as E1 E2.
    split; [exact E1|]. split; [rewrite E2, Hconf; reflexivity|].
    rewrite Ha', E1, E2. reflexivity.
  - destruct U.
    + rewrite (HU eq_refl) in Hc'. simpl in Hc, Hc'.
      injection Hc as Hconf. injection Hc' as E1 E2.
      split; [exact E1|]. split; [rewrite E2, Hconf; reflexivity|].
      rewrite Ha', E1, E2. reflexivity.
    + exfalso. unfold determine_context in Hc. simpl in Hc.
      repeat match type of Hc with
             | context [if ?x then _ else _] => destruct x
             end; discriminate.
Qed.

Lemma more_context_keeps_user_facing_witness :
  context (classify (with_more_context (lit "<div>") (lit "</div>")
                       Samples.banner)) = user_facing.
Proof.
  apply (@more_context_keeps_user_facing Samples.banner
           (lit "<div>") (lit "</div>")).
  reflexivity.
Defined.

(** ** The embed code *)



